(** * A shallow embedding of the video-translation status-polling client

    Source files embedded here:
    - [video_translation_client/models.py]: [JobStatus], [StatusResponse],
      [StatusPollingConfig];
    - [video_translation_client/video_translation_client.py]: the class
      [VideoTranslationClient] with [_get_status_once], [_calculate_delay],
      [_handle_status_change], [_wait_before_retry], [poll_until_complete];
    - [translation_server.py]: the class [TranslationServer] with its
      constructor and [handle_status]; starting the HTTP site is not
      modelled.

    Conventions of the model.
    - Python floats (delays, clock readings, the timeout) are exact rationals
      [Q], so rounding is outside the model.  The one float operation of the
      client that raises, [backoff_factor ** attempt], is modelled with its
      exceptions: [OverflowError] when the exponent or the power is beyond
      the range of a double, [ZeroDivisionError] for zero to a negative
      power.
    - Python ints ([attempt], [max_attempts]) are [Z].
    - The collaborators of the client are an environment [Env]: an oracle for
      the event-loop clock and one for the HTTP transport.  Every theorem
      quantifies over all environments, so nothing is assumed about how much
      time a request or a sleep takes.
    - The effects of the methods are threaded through a state-and-exception
      monad [M] over a [Machine]: the client object itself, how many clock
      readings and requests were consumed, and the history of observable
      actions (requests sent, callback invocations, sleeps).
    - Logging through [self.logger] has no influence on control flow and is
      not recorded.  The status-change callback is a collaborator that is
      invoked and awaited; what happens when the callback itself raises is
      left open by the specification and is not part of the model, nor is
      task cancellation. *)

From Stdlib Require Import ZArith QArith Qround Qminmax Qpower Qabs Lqa Lia List Bool Ascii String.
From stdpp Require Import base strings gmap.
Import ListNotations.

Local Open Scope Z_scope.
Local Open Scope Q_scope.
Local Open Scope string_scope.
Local Open Scope list_scope.

(** * The data model: models.py *)

Inductive JobStatus := pending | completed | error.

Definition JobStatus_eqb (a b : JobStatus) : bool :=
  match a, b with
  | pending, pending | completed, completed | error, error => true
  | _, _ => false
  end.

(** A decoded JSON value, as far as the client looks at it. *)
Inductive Json :=
| JString (s : string)
| JNumber (z : Z)
| JBool (b : bool)
| JNull.

Record StatusResponse := mkStatusResponse {
  status : JobStatus;
  raw_response : gmap string Json;
  elapsed_time : Q
}.

Record StatusPollingConfig := mkStatusPollingConfig {
  initial_delay : Q;
  max_delay : Q;
  backoff_factor : Q;
  max_attempts : Z;
  timeout : Q;
  jitter : bool
}.

(** [StatusPollingConfig()]: the field defaults of models.py. *)
Definition default_config : StatusPollingConfig :=
  {| initial_delay := 1; max_delay := 32; backoff_factor := 2;
     max_attempts := 10%Z; timeout := 300; jitter := true |}.

(** [JobStatus(value)]: the enumeration's lookup by value. *)
Definition JobStatus_of_string (s : string) : option JobStatus :=
  if String.eqb s "pending" then Some pending
  else if String.eqb s "completed" then Some completed
  else if String.eqb s "error" then Some error
  else None.

(** * Exceptions *)

Inductive Exc :=
| ClientConnectionError              (* aiohttp: the transport failed *)
| ClientResponseError (code : Z)     (* aiohttp: raise_for_status *)
| ContentTypeError                   (* aiohttp: a ClientResponseError of json() *)
| JSONDecodeError                    (* json: a ValueError *)
| KeyError (key : string)
| ValueError (v : Json)              (* JobStatus(v) on a value that is no member *)
| OverflowError                      (* float ** int out of range *)
| ZeroDivisionError                  (* 0.0 ** negative int *)
| TimeoutError (seconds : Q).        (* raised by poll_until_complete *)

(** [isinstance(e, aiohttp.ClientError)] *)
Definition is_ClientError (e : Exc) : bool :=
  match e with
  | ClientConnectionError | ClientResponseError _ | ContentTypeError => true
  | _ => false
  end.

(** [isinstance(e, aiohttp.ClientConnectionError)] *)
Definition is_ClientConnectionError (e : Exc) : bool :=
  match e with
  | ClientConnectionError => true
  | _ => false
  end.

(** * The environment *)

(** What [response.json()] finds. *)
Inductive Body :=
| NotJson                            (* content type is not application/json *)
| Malformed                          (* the text is no JSON document *)
| Payload (data : gmap string Json). (* a JSON object *)

(** What [session.get(url)] finds. *)
Inductive Transport :=
| Unreachable                        (* no connection could be made *)
| Replied (code : Z) (body : Body).

Record Env := mkEnv {
  clock : nat -> Q;           (* the n-th reading of the event-loop clock *)
  network : nat -> Transport  (* the outcome of the n-th request *)
}.

(** * The client object and the machine *)

(** The callback is an object of the caller; the model keeps its identity. *)
Record Callback := mkCallback { callback_id : nat }.

Record VideoTranslationClient := mkClient {
  base_url : string;
  config : StatusPollingConfig;
  on_status_change : option Callback
}.

Inductive Event :=
| Request (url : string)
| Notify (cb : Callback) (r : StatusResponse)
| Sleep (delay : Q).

Record Machine := mkMachine {
  self : VideoTranslationClient;
  ticks : nat;            (* clock readings consumed so far *)
  requests : nat;         (* requests sent so far *)
  history : list Event    (* oldest first *)
}.

(** * The monad of the methods *)

Inductive Res (A : Type) :=
| Ok (a : A)
| Raise (e : Exc).

Arguments Ok {A} a.
Arguments Raise {A} e.

Definition M (A : Type) : Type := Machine -> Res A * Machine.

Definition ret {A} (a : A) : M A := fun m => (Ok a, m).

Definition raise {A} (e : Exc) : M A := fun m => (Raise e, m).

Definition bind {A B} (c : M A) (k : A -> M B) : M B :=
  fun m =>
    match c m with
    | (Ok a, m') => k a m'
    | (Raise e, m') => (Raise e, m')
    end.

(** [try: body  except <caught> as e: handler e]; an exception outside
    [caught] passes through. *)
Definition try_except {A} (body : M A) (caught : Exc -> bool)
    (handler : Exc -> M A) : M A :=
  fun m =>
    match body m with
    | (Ok a, m') => (Ok a, m')
    | (Raise e, m') => if caught e then handler e m' else (Raise e, m')
    end.

Declare Scope py_scope.
Delimit Scope py_scope with py.
Notation "x <- c ;; k" := (bind c (fun x => k))
  (at level 100, c at next level, right associativity) : py_scope.
Notation "c ;;; k" := (bind c (fun _ => k))
  (at level 100, right associativity) : py_scope.
Local Open Scope py_scope.

(** Updates of the machine: one more clock reading, one more request, one
    more entry in the history. *)
Definition tick (m : Machine) : Machine :=
  {| self := self m; ticks := S (ticks m); requests := requests m;
     history := history m |}.

Definition sent (m : Machine) : Machine :=
  {| self := self m; ticks := ticks m; requests := S (requests m);
     history := history m |}.

Definition logged (ev : Event) (m : Machine) : Machine :=
  {| self := self m; ticks := ticks m; requests := requests m;
     history := history m ++ [ev] |}.

Definition get_self : M VideoTranslationClient := fun m => (Ok (self m), m).

Definition emit (ev : Event) : M unit := fun m => (Ok tt, logged ev m).

Definition Qlt_bool (x y : Q) : bool := negb (Qle_bool y x).

(** The least magnitude that no longer rounds to a finite double:
    2^1024 - 2^970, half an ulp above the largest double. *)
Definition float_limit : Q := inject_Z (2 ^ 1024 - 2 ^ 970).

(** [x ** n] for a float [x] and an int [n].  Python converts [n] to a
    float first and raises [OverflowError] when it is too large for one; it
    raises [ZeroDivisionError] for zero to a negative power and
    [OverflowError] when the result is out of range; otherwise the power,
    here exact. *)
Definition float_pow (x : Q) (n : Z) : Res Q :=
  if Qle_bool float_limit (inject_Z (Z.abs n)) then Raise OverflowError
  else if Qeq_bool x 0 && (n <? 0)%Z then Raise ZeroDivisionError
  else if Qlt_bool (Qabs (x ^ n)) float_limit then Ok (x ^ n)
  else Raise OverflowError.

(** A value that needs no machine, as a computation. *)
Definition lift {A} (r : Res A) : M A := fun m => (r, m).

(** [x % 1] on a float: the fractional part, in [0, 1). *)
Definition Qmod1 (x : Q) : Q := x - inject_Z (Qfloor x).

(** [str.rstrip("/")] *)
Fixpoint rstrip_slash (s : string) : string :=
  match s with
  | EmptyString => EmptyString
  | String c s' =>
      match rstrip_slash s' with
      | EmptyString => if Ascii.eqb c "/"%char then EmptyString else String c EmptyString
      | r => String c r
      end
  end.

(** [VideoTranslationClient.__init__] *)
Definition new_client (url : string) (cfg : option StatusPollingConfig)
    (cb : option Callback) : VideoTranslationClient :=
  {| base_url := rstrip_slash url;
     config := match cfg with Some c => c | None => default_config end;
     on_status_change := cb |}.

Definition boot (c : VideoTranslationClient) : Machine :=
  {| self := c; ticks := 0; requests := 0; history := [] |}.

(** * The methods of [VideoTranslationClient] *)

Section Client.

Variable env : Env.

(** [asyncio.get_event_loop().time()] *)
Definition loop_time : M Q :=
  fun m => (Ok (clock env (ticks m)), tick m).

(** [session.get(url)]: sends the request; the transport may fail. *)
Definition session_get (url : string) : M (Z * Body) :=
  fun m =>
    let m' := sent (logged (Request url) m) in
    match network env (requests m) with
    | Unreachable => (Raise ClientConnectionError, m')
    | Replied code body => (Ok (code, body), m')
    end.

(** [response.raise_for_status()] *)
Definition raise_for_status (code : Z) : M unit :=
  if (400 <=? code)%Z then raise (ClientResponseError code) else ret tt.

(** [await response.json()] *)
Definition response_json (body : Body) : M (gmap string Json) :=
  match body with
  | NotJson => raise ContentTypeError
  | Malformed => raise JSONDecodeError
  | Payload data => ret data
  end.

(** [data[key]] *)
Definition getitem (data : gmap string Json) (key : string) : M Json :=
  match data !! key with
  | Some v => ret v
  | None => raise (KeyError key)
  end.

(** [JobStatus(v)] *)
Definition JobStatus_call (v : Json) : M JobStatus :=
  match v with
  | JString s =>
      match JobStatus_of_string s with
      | Some st => ret st
      | None => raise (ValueError v)
      end
  | _ => raise (ValueError v)
  end.

(** [_get_status_once]: both handlers log and re-raise. *)
Definition _get_status_once : M StatusResponse :=
  start_time <- loop_time ;;
  me <- get_self ;;
  let url := (base_url me ++ "/status")%string in
  try_except
    (response <- session_get url ;;
     raise_for_status (fst response) ;;;
     data <- response_json (snd response) ;;
     v <- getitem data "result" ;;
     st <- JobStatus_call v ;;
     now <- loop_time ;;
     ret {| status := st; raw_response := data;
            elapsed_time := now - start_time |})
    (fun _ => true)
    (fun e => raise e).

(** [_calculate_delay]: the power is evaluated first and may raise. *)
Definition _calculate_delay (attempt : Z) : M Q :=
  me <- get_self ;;
  power <- lift (float_pow (backoff_factor (config me)) attempt) ;;
  let delay := Qmin (initial_delay (config me) * power) (max_delay (config me)) in
  if jitter (config me) then
    now <- loop_time ;;
    ret (delay * (1 + (2 # 10) * Qmod1 now))
  else ret delay.

(** [last_status != status_response.status], with [last_status] optional *)
Definition status_differs (last_status : option JobStatus) (st : JobStatus) : bool :=
  match last_status with
  | None => true
  | Some l => negb (JobStatus_eqb l st)
  end.

(** [_handle_status_change] *)
Definition _handle_status_change (status_response : StatusResponse)
    (last_status : option JobStatus) : M unit :=
  me <- get_self ;;
  match on_status_change me with
  | Some cb =>
      if status_differs last_status (status status_response)
      then emit (Notify cb status_response)
      else ret tt
  | None => ret tt
  end.

(** [_wait_before_retry] *)
Definition _wait_before_retry (attempt : Z) : M unit :=
  delay <- _calculate_delay attempt ;;
  emit (Sleep delay).

(** [status in (JobStatus.completed, JobStatus.error)] *)
Definition terminal (st : JobStatus) : bool :=
  match st with
  | completed | error => true
  | pending => false
  end.

(** How one pass through the body of the [while] loop ends, when it does not
    raise: with [return status_response], or at the end of the body with the
    loop variables [attempt] and [last_status]. *)
Inductive Step :=
| Return (r : StatusResponse)
| Continue (attempt : Z) (last_status : option JobStatus).

(** The [try]/[except] statement inside the loop. *)
Definition loop_body (attempt : Z) (last_status : option JobStatus) : M Step :=
  try_except
    (status_response <- _get_status_once ;;
     _handle_status_change status_response last_status ;;;
     let last_status := Some (status status_response) in
     if terminal (status status_response) then ret (Return status_response)
     else
       let attempt := (attempt + 1)%Z in
       _wait_before_retry attempt ;;;
       ret (Continue attempt last_status))
    is_ClientError
    (fun polling_error =>
       if is_ClientConnectionError polling_error then raise polling_error
       else
         _wait_before_retry attempt ;;;
         ret (Continue (attempt + 1)%Z last_status)).

(** The loop guard, after the clock was read:
    [time() < timeout and attempt < self.config.max_attempts] *)
Definition guard (now deadline : Q) (attempt : Z) (cfg : StatusPollingConfig) : bool :=
  Qlt_bool now deadline && (attempt <? max_attempts cfg)%Z.

(** The [while] loop followed by the final [raise TimeoutError(...)].
    [None] only when [fuel] passes through the loop were not enough. *)
Fixpoint poll_loop (fuel : nat) (deadline : Q) (attempt : Z)
    (last_status : option JobStatus) (m : Machine)
    : option (Res StatusResponse * Machine) :=
  match fuel with
  | O => None
  | S fuel' =>
      match loop_time m with
      | (Ok now, m1) =>
          if guard now deadline attempt (config (self m1)) then
            match loop_body attempt last_status m1 with
            | (Ok (Return r), m2) => Some (Ok r, m2)
            | (Ok (Continue attempt' last_status'), m2) =>
                poll_loop fuel' deadline attempt' last_status' m2
            | (Raise e, m2) => Some (Raise e, m2)
            end
          else Some (Raise (TimeoutError (timeout (config (self m1)))), m1)
      | (Raise e, m1) => Some (Raise e, m1)
      end
  end.

(** [poll_until_complete]; the local variable holding the deadline is named
    [timeout] in the source. *)
Definition poll_until_complete (m : Machine) : option (Res StatusResponse * Machine) :=
  match loop_time m with
  | (Ok now, m1) =>
      let deadline := now + timeout (config (self m1)) in
      poll_loop (S (Z.to_nat (max_attempts (config (self m1))))) deadline 0%Z None m1
  | (Raise e, m1) => Some (Raise e, m1)
  end.

End Client.

(** * Notions for stating what the methods do *)

(** The verdict of one request, read off the transport alone: what
    [_get_status_once] makes of it, apart from the elapsed time. *)
Definition verdict (t : Transport) : Res (JobStatus * gmap string Json) :=
  match t with
  | Unreachable => Raise ClientConnectionError
  | Replied code body =>
      if (400 <=? code)%Z then Raise (ClientResponseError code)
      else match body with
           | NotJson => Raise ContentTypeError
           | Malformed => Raise JSONDecodeError
           | Payload data =>
               match data !! "result" with
               | None => Raise (KeyError "result")
               | Some (JString s) =>
                   match JobStatus_of_string s with
                   | Some st => Ok (st, data)
                   | None => Raise (ValueError (JString s))
                   end
               | Some v => Raise (ValueError v)
               end
           end
  end.

(** The machine after the request of [_get_status_once] went out. *)
Definition asked (m : Machine) : Machine :=
  sent (logged (Request (base_url (self m) ++ "/status")%string) (tick m)).

(** The value [min(initial_delay * backoff_factor ^ attempt, max_delay)] in
    exact arithmetic. *)
Definition base_delay (cfg : StatusPollingConfig) (attempt : Z) : Q :=
  Qmin (initial_delay cfg * backoff_factor cfg ^ attempt) (max_delay cfg).

(** The power [_calculate_delay] evaluates for [attempt] on machine [m]. *)
Definition power_at (attempt : Z) (m : Machine) : Res Q :=
  float_pow (backoff_factor (config (self m))) attempt.

(** The delay [_calculate_delay] computes on machine [m] when the power does
    not raise, and the machine it leaves: with jitter one clock reading is
    consumed. *)
Definition delay_at (env : Env) (attempt : Z) (m : Machine) : Q :=
  let cfg := config (self m) in
  if jitter cfg
  then base_delay cfg attempt * (1 + (2 # 10) * Qmod1 (clock env (ticks m)))
  else base_delay cfg attempt.

Definition jittered (m : Machine) : Machine :=
  if jitter (config (self m)) then tick m else m.

Definition slept (env : Env) (attempt : Z) (m : Machine) : Machine :=
  logged (Sleep (delay_at env attempt m)) (jittered m).

(** What [_wait_before_retry] does on machine [m]. *)
Definition waited (env : Env) (attempt : Z) (m : Machine) : Res unit * Machine :=
  match power_at attempt m with
  | Ok _ => (Ok tt, slept env attempt m)
  | Raise e => (Raise e, m)
  end.

(** The machine after [_handle_status_change]. *)
Definition notified (r : StatusResponse) (last_status : option JobStatus)
    (m : Machine) : Machine :=
  match on_status_change (self m) with
  | Some cb =>
      if status_differs last_status (status r) then logged (Notify cb r) m else m
  | None => m
  end.

(** The loop variables together with the machine, at the top of the loop. *)
Record Vars := mkVars {
  attempt_of : Z;
  last_status_of : option JobStatus;
  machine_of : Machine
}.

(** The guard as evaluated at the top of the loop in state [s]: it reads the
    clock once. *)
Definition guard_at (env : Env) (deadline : Q) (s : Vars) : bool :=
  guard (clock env (ticks (machine_of s))) deadline (attempt_of s)
        (config (self (machine_of s))).

(** The body as run from the top of the loop in state [s]. *)
Definition body_at (env : Env) (s : Vars) : Res Step * Machine :=
  loop_body env (attempt_of s) (last_status_of s) (tick (machine_of s)).

(** A pass that comes back to the top of the loop. *)
Definition pass (env : Env) (deadline : Q) (s : Vars) : option Vars :=
  if guard_at env deadline s then
    match body_at env s with
    | (Ok (Continue a l), m) => Some (mkVars a l m)
    | _ => None
    end
  else None.

(** A pass that leaves the loop, and with what. *)
Definition finish (env : Env) (deadline : Q) (s : Vars)
    : option (Res StatusResponse * Machine) :=
  if guard_at env deadline s then
    match body_at env s with
    | (Ok (Return r), m) => Some (Ok r, m)
    | (Ok (Continue _ _), _) => None
    | (Raise e, m) => Some (Raise e, m)
    end
  else Some (Raise (TimeoutError (timeout (config (self (machine_of s))))),
             tick (machine_of s)).

(** The state at the top of the loop after [k] passes from [s], if the loop
    gets that far. *)
Fixpoint passes (env : Env) (deadline : Q) (k : nat) (s : Vars) : option Vars :=
  match k with
  | O => Some s
  | S k' =>
      match pass env deadline s with
      | Some s' => passes env deadline k' s'
      | None => None
      end
  end.

Definition run_loop (env : Env) (fuel : nat) (deadline : Q) (s : Vars) :=
  poll_loop env fuel deadline (attempt_of s) (last_status_of s) (machine_of s).

(** The loop variables as [poll_until_complete] initialises them, after the
    clock reading that fixes the deadline. *)
Definition start (m : Machine) : Vars :=
  {| attempt_of := 0; last_status_of := None; machine_of := tick m |}.

(** [asyncio.get_event_loop().time() + self.config.timeout] at the call. *)
Definition deadline_of (env : Env) (m : Machine) : Q :=
  clock env (ticks m) + timeout (config (self m)).

(** The values of the enumeration. *)
Definition JobStatus_value (st : JobStatus) : string :=
  match st with
  | pending => "pending"
  | completed => "completed"
  | error => "error"
  end.

(** The remote service reports status [st]: a reply that is no HTTP error
    and whose JSON object carries the value of [st] under the key result. *)
Definition reports (t : Transport) (st : JobStatus) : Prop :=
  exists code data,
    t = Replied code (Payload data) /\ (code < 400)%Z /\
    data !! "result" = Some (JString (JobStatus_value st)).

(** A fetch outcome after which the loop goes on: a pending status, or a
    client error other than a connection error. *)
Definition retried (o : Res StatusResponse) : bool :=
  match o with
  | Ok r => negb (terminal (status r))
  | Raise e => is_ClientError e && negb (is_ClientConnectionError e)
  end.

(** The attempt whose delay a pass waits after a fetch that ended with [o]:
    the incremented counter after a response, the counter as it stands
    after an error; and the machine on which the wait begins. *)
Definition wait_attempt (s : Vars) (o : Res StatusResponse) : Z :=
  match o with
  | Ok _ => (attempt_of s + 1)%Z
  | Raise _ => attempt_of s
  end.

Definition before_wait (s : Vars) (o : Res StatusResponse) (m1 : Machine) : Machine :=
  match o with
  | Ok r => notified r (last_status_of s) m1
  | Raise _ => m1
  end.

(** The state in which a pass whose fetch ended with [o] on machine [m1]
    comes back to the top of the loop. *)
Definition resumed (env : Env) (s : Vars) (o : Res StatusResponse) (m1 : Machine) : Vars :=
  match o with
  | Ok r =>
      {| attempt_of := attempt_of s + 1; last_status_of := Some (status r);
         machine_of := slept env (attempt_of s + 1) (notified r (last_status_of s) m1) |}
  | Raise e =>
      {| attempt_of := attempt_of s + 1; last_status_of := last_status_of s;
         machine_of := slept env (attempt_of s) m1 |}
  end.

(** The callback invocations in a stretch of history, in order. *)
Fixpoint notifications (evs : list Event) : list (Callback * StatusResponse) :=
  match evs with
  | [] => []
  | Notify cb r :: evs' => (cb, r) :: notifications evs'
  | _ :: evs' => notifications evs'
  end.


(** Two responses that agree; the elapsed times as rational numbers. *)
Definition same_response (r r' : StatusResponse) : Prop :=
  status r' = status r /\ raw_response r' = raw_response r /\
  elapsed_time r' == elapsed_time r.

Definition same_result (o o' : Res StatusResponse) : Prop :=
  match o, o' with
  | Ok r, Ok r' => same_response r r'
  | Raise e, Raise e' => e' = e
  | _, _ => False
  end.

(** Two actions of the same kind: requests of the same URL, notifications
    of the same callback with agreeing responses, sleeps; with [exact] the
    sleeps last equally long. *)
Definition same_action (exact : bool) (ev ev' : Event) : Prop :=
  match ev, ev' with
  | Request url, Request url' => url' = url
  | Notify cb r, Notify cb' r' => cb' = cb /\ same_response r r'
  | Sleep d, Sleep d' => if exact then d' == d else True
  | _, _ => False
  end.

(** Machine [m'] in [env'] faces what [m] faces in [env], [shift] seconds
    later: the same client object, the same replies from here on, and clock
    readings that are those of [m] plus [shift]; and beyond [h'] it has
    done what [m] has done beyond [h], where sleeps have to agree in
    duration only if the client has jitter off. *)
Definition aligned (env env' : Env) (shift : Q) (h h' : list Event)
    (m m' : Machine) : Prop :=
  self m' = self m /\
  (forall n, clock env' (ticks m' + n) == clock env (ticks m + n) + shift) /\
  (forall n, network env' (requests m' + n) = network env (requests m + n)) /\
  exists evs evs',
    history m = h ++ evs /\ history m' = h' ++ evs' /\
    Forall2 (same_action (negb (jitter (config (self m))))) evs evs'.

Definition aligned_vars (env env' : Env) (shift : Q) (h h' : list Event)
    (s s' : Vars) : Prop :=
  attempt_of s' = attempt_of s /\ last_status_of s' = last_status_of s /\
  aligned env env' shift h h' (machine_of s) (machine_of s').

(** Two outcomes of a pass that agree. *)
Definition same_exit (env env' : Env) (shift : Q) (h h' : list Event)
    (x x' : option (Res StatusResponse * Machine)) : Prop :=
  match x, x' with
  | Some (o, m), Some (o', m') => same_result o o' /\ aligned env env' shift h h' m m'
  | None, None => True
  | _, _ => False
  end.

Definition same_resume (env env' : Env) (shift : Q) (h h' : list Event)
    (x x' : option Vars) : Prop :=
  match x, x' with
  | Some s, Some s' => aligned_vars env env' shift h h' s s'
  | None, None => True
  | _, _ => False
  end.

(** * Environments and clients for worked runs *)

(** A clock that advances by a quarter of a second per reading. *)
Definition quarter_clock (n : nat) : Q := inject_Z (Z.of_nat n) * (1 # 4).

Definition pending_body : Body := Payload {[ "result" := JString "pending" ]}.

Definition completed_body : Body := Payload {[ "result" := JString "completed" ]}.

Definition error_body : Body := Payload {[ "result" := JString "error" ]}.

(** The job has failed on the remote side. *)
Definition fails_remotely : Env :=
  {| clock := quarter_clock; network := fun _ => Replied 200 error_body |}.

(** The configuration of the test suite's fixture, without jitter. *)
Definition fixture_config : StatusPollingConfig :=
  {| initial_delay := 1 # 2; max_delay := 2; backoff_factor := 2;
     max_attempts := 5%Z; timeout := 10; jitter := false |}.

Definition watcher : Callback := {| callback_id := 0 |}.

Definition fixture_client : VideoTranslationClient :=
  new_client "http://localhost:8000/" (Some fixture_config) (Some watcher).

(** Two pending replies, then completed. *)
Definition two_pending : Env :=
  {| clock := quarter_clock;
     network := fun n => Replied 200 (if (n <? 2)%nat then pending_body else completed_body) |}.

(** The service answers the first request with pending and is unreachable
    afterwards. *)
Definition goes_away : Env :=
  {| clock := quarter_clock;
     network := fun n => if (n <? 1)%nat then Replied 200 pending_body else Unreachable |}.





(** A configuration whose backoff factor is below one. *)
Definition shrinking_config : StatusPollingConfig :=
  {| initial_delay := 1; max_delay := 32; backoff_factor := 1 # 2;
     max_attempts := 10%Z; timeout := 300; jitter := false |}.



(** Always pending: with five attempts allowed and delays of 1, 2, 2, 2, 2
    the attempt cap is reached at the sixth evaluation of the guard. *)
Definition never_done : Env :=
  {| clock := quarter_clock; network := fun _ => Replied 200 pending_body |}.


(** The fixture's configuration with jitter, as the test suite has it. *)
Definition jitter_client : VideoTranslationClient :=
  new_client "http://localhost:8000/"
    (Some {| initial_delay := 1 # 2; max_delay := 2; backoff_factor := 2;
             max_attempts := 5%Z; timeout := 10; jitter := true |})
    (Some watcher).

(** A clock that advances by an eighth of a second per reading, and a
    service whose jobs each take two pending replies and a completed one. *)
Definition recurring : Env :=
  {| clock := fun n => inject_Z (Z.of_nat n) * (1 # 8);
     network := fun n => Replied 200 (if (n mod 3 <? 2)%nat then pending_body
                                      else completed_body) |}.

(** * Reading histories *)

(** The URLs requested in a stretch of history, in order. *)
Fixpoint request_urls (evs : list Event) : list string :=
  match evs with
  | [] => []
  | Request url :: evs' => url :: request_urls evs'
  | _ :: evs' => request_urls evs'
  end.

(** The durations slept in a stretch of history, in order. *)
Fixpoint sleeps (evs : list Event) : list Q :=
  match evs with
  | [] => []
  | Sleep d :: evs' => d :: sleeps evs'
  | _ :: evs' => sleeps evs'
  end.

Definition total_sleep (evs : list Event) : Q := fold_right Qplus 0 (sleeps evs).

(** A string of [n] slashes. *)
Fixpoint slashes (n : nat) : string :=
  match n with
  | O => EmptyString
  | S n' => String "/"%char (slashes n')
  end.

(** [s.endswith("/")] *)
Fixpoint ends_with_slash (s : string) : bool :=
  match s with
  | EmptyString => false
  | String c EmptyString => Ascii.eqb c "/"%char
  | String _ s' => ends_with_slash s'
  end.

(** What the run of [poll_until_complete] has done when the loop is at its
    top in state [s], having started on machine [m]: it has done [evs],
    with one request and one sleep per pass; all requests went to the status
    URL; every sleep lasted what [_calculate_delay] computed; and the
    callback was notified not at all while no status was seen, and once,
    of a pending response, since then. *)
Definition at_top (env : Env) (m : Machine) (k : nat) (s : Vars) (evs : list Event) : Prop :=
  history (machine_of s) = history m ++ evs /\
  length (request_urls evs) = k /\
  length (sleeps evs) = k /\
  Forall (fun url => url = (base_url (self m) ++ "/status")%string) (request_urls evs) /\
  Forall (fun d => exists a mm, d = delay_at env a mm /\ self mm = self m) (sleeps evs) /\
  ((last_status_of s = None /\ notifications evs = []) \/
   (last_status_of s = Some pending /\
    match on_status_change (self m) with
    | Some cb => exists r, status r = pending /\ notifications evs = [(cb, r)]
    | None => notifications evs = []
    end)).

(** * The mock server: translation_server.py *)

(** Points in time ([datetime]) are seconds as rationals; the difference of
    two of them is what [total_seconds()] returns. *)
Record TranslationServer := mkServer {
  start_time : option Q;
  completion_time : Q;
  error_rate : Q
}.

(** [TranslationServer.__init__], with the defaults 10.0 and 0.1. *)
Definition new_server (completion rate : option Q) : TranslationServer :=
  {| start_time := None;
     completion_time := match completion with Some c => c | None => 10 end;
     error_rate := match rate with Some e => e | None => 1 # 10 end |}.

(** What the calls of one [handle_status] that read the outside world
    return: [datetime.now()] where the start time is set, [random.random()],
    and [datetime.now()] where the elapsed time is taken. *)
Record Moment := mkMoment {
  now_at_start : Q;
  draw : Q;
  now_at_check : Q
}.

(** [web.json_response({"result": value})]: status 200 and a JSON body. *)
Definition json_response (value : string) : Transport :=
  Replied 200 (Payload {[ "result" := JString value ]}).

(** [handle_status]: the reply and the server afterwards. *)
Definition handle_status (srv : TranslationServer) (mo : Moment)
    : Transport * TranslationServer :=
  let t0 := match start_time srv with
            | None => now_at_start mo
            | Some t => t
            end in
  let srv' := {| start_time := Some t0; completion_time := completion_time srv;
                 error_rate := error_rate srv |} in
  if Qlt_bool (draw mo) (error_rate srv') then (json_response "error", srv')
  else
    let elapsed := now_at_check mo - t0 in
    if Qle_bool (completion_time srv') elapsed
    then (json_response "completed", srv')
    else (json_response "pending", srv').

(** The server after [n] requests, and its reply to request number [n]. *)
Fixpoint served (srv : TranslationServer) (moments : nat -> Moment) (n : nat)
    : TranslationServer :=
  match n with
  | O => srv
  | S n' => snd (handle_status (served srv moments n') (moments n'))
  end.

Definition reply (srv : TranslationServer) (moments : nat -> Moment) (n : nat)
    : Transport :=
  fst (handle_status (served srv moments n) (moments n)).

(** A client's environment when the server [srv] answers its requests, and
    nobody else's. *)
Definition against (srv : TranslationServer) (moments : nat -> Moment)
    (clk : nat -> Q) : Env :=
  {| clock := clk; network := reply srv moments |}.

(** The time the server counts from: its start time, or the time of the
    first request if it has none yet. *)
Definition origin (srv : TranslationServer) (moments : nat -> Moment) : Q :=
  match start_time srv with
  | Some t => t
  | None => now_at_start (moments O)
  end.

(** One request per second, never an error drawn. *)
Definition every_second (n : nat) : Moment :=
  {| now_at_start := inject_Z (Z.of_nat n); draw := 1 # 2;
     now_at_check := inject_Z (Z.of_nat n) |}.

(** * Proofs *)

(** ** The building blocks *)

Lemma Qlt_bool_iff (x y : Q) : Qlt_bool x y = true <-> x < y.
Proof.
  unfold Qlt_bool. rewrite negb_true_iff. split.
  - intros H. apply Qnot_le_lt. intros Hle.
    apply Qle_bool_iff in Hle. congruence.
  - intros H. destruct (Qle_bool y x) eqn:E; [|reflexivity].
    apply Qle_bool_iff in E. exfalso. apply (Qlt_not_le _ _ H E).
Qed.

Lemma Qlt_bool_false_iff (x y : Q) : Qlt_bool x y = false <-> y <= x.
Proof.
  unfold Qlt_bool. rewrite negb_false_iff. apply Qle_bool_iff.
Qed.

Lemma Qlt_bool_false_iff_neg (x y : Q) : Qle_bool y x = false <-> x < y.
Proof.
  rewrite <- Qlt_bool_iff. unfold Qlt_bool. apply iff_sym, negb_true_iff.
Qed.

Lemma Qmod1_range (x : Q) : 0 <= Qmod1 x /\ Qmod1 x < 1.
Proof.
  unfold Qmod1. pose proof (Qfloor_le x) as Hlo. pose proof (Qlt_floor x) as Hhi.
  rewrite inject_Z_plus in Hhi. change (inject_Z 1) with 1 in Hhi.
  split; lra.
Qed.

Lemma get_status_once_eq (env : Env) (m : Machine) :
  _get_status_once env m =
  match verdict (network env (requests m)) with
  | Ok (st, data) =>
      (Ok {| status := st; raw_response := data;
             elapsed_time := clock env (S (ticks m)) - clock env (ticks m) |},
       tick (asked m))
  | Raise e => (Raise e, asked m)
  end.
Proof.
  unfold _get_status_once, try_except, bind, loop_time, get_self, session_get,
    asked, verdict. cbn.
  destruct (network env (requests m)) as [|code body]; cbn; [reflexivity|].
  unfold raise_for_status. destruct (400 <=? code)%Z; cbn; [reflexivity|].
  destruct body as [| |data]; cbn; try reflexivity.
  unfold getitem. destruct (data !! "result") as [v|]; cbn; [|reflexivity].
  destruct v as [s| | |]; cbn; try reflexivity.
  destruct (JobStatus_of_string s); cbn; reflexivity.
Qed.

Lemma float_pow_ok (x : Q) (n : Z) (p : Q) :
  float_pow x n = Ok p -> p = x ^ n.
Proof.
  unfold float_pow. destruct (Qle_bool _ _); [discriminate|].
  destruct (Qeq_bool x 0 && (n <? 0)%Z); [discriminate|].
  destruct (Qlt_bool _ _); [|discriminate]. intros [= <-]. reflexivity.
Qed.

Lemma float_pow_in_range (x : Q) (n : Z) :
  1 <= x -> (0 <= n)%Z -> inject_Z n < float_limit -> x ^ n < float_limit ->
  float_pow x n = Ok (x ^ n).
Proof.
  intros Hx Hn Hexp Hlim. unfold float_pow.
  assert (Hc : Qle_bool float_limit (inject_Z (Z.abs n)) = false).
  { rewrite Z.abs_eq by exact Hn. apply Qlt_bool_false_iff_neg. exact Hexp. }
  rewrite Hc.
  assert (Hz : Qeq_bool x 0 = false).
  { destruct (Qeq_bool x 0) eqn:E; [|reflexivity].
    apply Qeq_bool_iff in E. lra. }
  rewrite Hz. cbn [andb].
  assert (Hpos : 0 <= x ^ n) by (apply Qpower_0_le; lra).
  assert (Hlt : Qlt_bool (Qabs (x ^ n)) float_limit = true).
  { apply Qlt_bool_iff. rewrite (Qabs_pos _ Hpos). exact Hlim. }
  rewrite Hlt. reflexivity.
Qed.

Lemma float_pow_not_timeout (x : Q) (n : Z) (e : Exc) (q : Q) :
  float_pow x n = Raise e -> e <> TimeoutError q.
Proof.
  unfold float_pow. destruct (Qle_bool _ _); [intros [= <-]; discriminate|].
  destruct (Qeq_bool x 0 && (n <? 0)%Z); [intros [= <-]; discriminate|].
  destruct (Qlt_bool _ _); [discriminate|intros [= <-]; discriminate].
Qed.

Lemma float_pow_raises (x : Q) (n : Z) (e : Exc) :
  float_pow x n = Raise e ->
  e = OverflowError \/ (e = ZeroDivisionError /\ (n < 0)%Z).
Proof.
  unfold float_pow. destruct (Qle_bool _ _); [intros [= <-]; left; reflexivity|].
  destruct (Qeq_bool x 0 && (n <? 0)%Z) eqn:E.
  - intros [= <-]. right. split; [reflexivity|].
    apply andb_true_iff in E. destruct E as [_ E]. apply Z.ltb_lt in E. exact E.
  - destruct (Qlt_bool _ _); [discriminate|intros [= <-]; left; reflexivity].
Qed.

Lemma float_pow_not_client_error (x : Q) (n : Z) (e : Exc) :
  float_pow x n = Raise e -> is_ClientError e = false.
Proof.
  unfold float_pow. destruct (Qle_bool _ _); [intros [= <-]; reflexivity|].
  destruct (Qeq_bool x 0 && (n <? 0)%Z); [intros [= <-]; reflexivity|].
  destruct (Qlt_bool _ _); [discriminate|intros [= <-]; reflexivity].
Qed.

Lemma power_at_self (attempt : Z) (m m' : Machine) :
  self m = self m' -> power_at attempt m = power_at attempt m'.
Proof. unfold power_at. intros ->. reflexivity. Qed.

Lemma calculate_delay_eq (env : Env) (attempt : Z) (m : Machine) :
  _calculate_delay env attempt m =
  match power_at attempt m with
  | Ok _ => (Ok (delay_at env attempt m), jittered m)
  | Raise e => (Raise e, m)
  end.
Proof.
  unfold _calculate_delay, delay_at, jittered, power_at, base_delay, bind, get_self,
    lift, loop_time, ret.
  destruct (float_pow _ _) as [p|e] eqn:E; [|reflexivity].
  apply float_pow_ok in E. subst p.
  destruct (jitter (config (self m))); reflexivity.
Qed.

Lemma wait_before_retry_eq (env : Env) (attempt : Z) (m : Machine) :
  _wait_before_retry env attempt m = waited env attempt m.
Proof.
  unfold _wait_before_retry, waited, bind. rewrite calculate_delay_eq.
  destruct (power_at attempt m); reflexivity.
Qed.

Lemma handle_status_change_eq (r : StatusResponse)
    (last_status : option JobStatus) (m : Machine) :
  _handle_status_change r last_status m = (Ok tt, notified r last_status m).
Proof.
  unfold _handle_status_change, notified, bind, get_self, emit, ret.
  destruct (on_status_change (self m)); [|reflexivity].
  destruct (status_differs last_status (status r)); reflexivity.
Qed.

(** One pass through the loop body, by the outcome of its fetch. *)
Lemma loop_body_eq (env : Env) (attempt : Z) (last_status : option JobStatus)
    (m : Machine) :
  loop_body env attempt last_status m =
  match _get_status_once env m with
  | (Ok r, m1) =>
      if terminal (status r) then (Ok (Return r), notified r last_status m1)
      else match waited env (attempt + 1) (notified r last_status m1) with
           | (Ok _, m2) => (Ok (Continue (attempt + 1) (Some (status r))), m2)
           | (Raise e, m2) => (Raise e, m2)
           end
  | (Raise e, m1) =>
      if is_ClientError e then
        if is_ClientConnectionError e then (Raise e, m1)
        else match waited env attempt m1 with
             | (Ok _, m2) => (Ok (Continue (attempt + 1) last_status), m2)
             | (Raise e', m2) => (Raise e', m2)
             end
      else (Raise e, m1)
  end.
Proof.
  unfold loop_body, try_except, bind.
  destruct (_get_status_once env m) as [[r|e] m1].
  - rewrite handle_status_change_eq.
    destruct (terminal (status r)); [reflexivity|].
    rewrite wait_before_retry_eq. unfold waited.
    destruct (power_at _ _) as [p|e'] eqn:E; [reflexivity|].
    rewrite (float_pow_not_client_error _ _ _ E). reflexivity.
  - destruct (is_ClientError e); [|reflexivity].
    destruct (is_ClientConnectionError e); [reflexivity|].
    rewrite wait_before_retry_eq. unfold waited.
    destruct (power_at _ _); reflexivity.
Qed.

(** ** The loop, pass by pass *)

Lemma pass_eq (env : Env) (deadline : Q) (s : Vars) :
  pass env deadline s =
  if guard_at env deadline s then
    match _get_status_once env (tick (machine_of s)) with
    | (o, m1) =>
        if retried o then
          match power_at (wait_attempt s o) (before_wait s o m1) with
          | Ok _ => Some (resumed env s o m1)
          | Raise _ => None
          end
        else None
    end
  else None.
Proof.
  unfold pass, body_at. destruct (guard_at env deadline s); [|reflexivity].
  rewrite loop_body_eq. destruct (_get_status_once _ _) as [[r|e] m1]; cbn.
  - destruct (terminal (status r)); [reflexivity|]. cbn. unfold waited.
    destruct (power_at _ _); reflexivity.
  - destruct (is_ClientError e); [|reflexivity].
    destruct (is_ClientConnectionError e); [reflexivity|]. cbn. unfold waited.
    destruct (power_at _ _); reflexivity.
Qed.

Lemma finish_eq (env : Env) (deadline : Q) (s : Vars) :
  finish env deadline s =
  if guard_at env deadline s then
    match _get_status_once env (tick (machine_of s)) with
    | (o, m1) =>
        if retried o then
          match power_at (wait_attempt s o) (before_wait s o m1) with
          | Ok _ => None
          | Raise e => Some (Raise e, before_wait s o m1)
          end
        else match o with
             | Ok r => Some (Ok r, notified r (last_status_of s) m1)
             | Raise e => Some (Raise e, m1)
             end
    end
  else Some (Raise (TimeoutError (timeout (config (self (machine_of s))))),
             tick (machine_of s)).
Proof.
  unfold finish, body_at. destruct (guard_at env deadline s); [|reflexivity].
  rewrite loop_body_eq. destruct (_get_status_once _ _) as [[r|e] m1]; cbn.
  - destruct (terminal (status r)); [reflexivity|]. cbn. unfold waited.
    destruct (power_at _ _); reflexivity.
  - destruct (is_ClientError e); [|reflexivity].
    destruct (is_ClientConnectionError e); [reflexivity|]. cbn. unfold waited.
    destruct (power_at _ _); reflexivity.
Qed.

(** A fetch leaves the client object alone and sends one request. *)
Lemma get_status_once_frame (env : Env) (m : Machine) :
  self (snd (_get_status_once env m)) = self m /\
  requests (snd (_get_status_once env m)) = S (requests m).
Proof.
  rewrite get_status_once_eq. destruct (verdict _) as [[st data]|e]; split; reflexivity.
Qed.

Lemma before_wait_frame (s : Vars) (o : Res StatusResponse) (m1 : Machine) :
  self (before_wait s o m1) = self m1 /\
  requests (before_wait s o m1) = requests m1.
Proof.
  destruct o as [r|e]; cbn; [|split; reflexivity].
  unfold notified. destruct (on_status_change (self m1)); [|split; reflexivity].
  destruct (status_differs _ _); split; reflexivity.
Qed.

Lemma resumed_frame (env : Env) (s : Vars) (o : Res StatusResponse) (m1 : Machine) :
  attempt_of (resumed env s o m1) = (attempt_of s + 1)%Z /\
  self (machine_of (resumed env s o m1)) = self m1 /\
  requests (machine_of (resumed env s o m1)) = requests m1.
Proof.
  destruct (before_wait_frame s o m1) as [Hs Hr].
  destruct o as [r|e]; cbn in *; unfold jittered;
    (split; [reflexivity|]); destruct (jitter _); cbn; split; assumption.
Qed.

Lemma run_loop_step (env : Env) (fuel : nat) (deadline : Q) (s : Vars) :
  run_loop env (S fuel) deadline s =
  match finish env deadline s with
  | Some out => Some out
  | None =>
      match pass env deadline s with
      | Some s' => run_loop env fuel deadline s'
      | None => None
      end
  end.
Proof.
  unfold run_loop, finish, pass, guard_at, body_at. cbn [poll_loop loop_time].
  cbn [self tick]. destruct (guard _ _ _ _); [|reflexivity].
  destruct (loop_body _ _ _ _) as [[[r|a l]|e] m2]; reflexivity.
Qed.

Lemma finish_or_pass (env : Env) (deadline : Q) (s : Vars) :
  (exists out, finish env deadline s = Some out /\ pass env deadline s = None) \/
  (exists s', pass env deadline s = Some s' /\ finish env deadline s = None).
Proof.
  unfold finish, pass. destruct (guard_at env deadline s); [|left; eauto].
  destruct (body_at env s) as [[[r|a l]|e] m2]; eauto.
Qed.


Lemma passes_unsnoc (env : Env) (deadline : Q) (k : nat) (s s2 : Vars) :
  passes env deadline (S k) s = Some s2 ->
  exists s1, passes env deadline k s = Some s1 /\ pass env deadline s1 = Some s2.
Proof.
  revert s. induction k as [|k IH]; intros s H.
  - cbn in H. exists s. split; [reflexivity|].
    destruct (pass env deadline s); [assumption|discriminate].
  - cbn in H. destruct (pass env deadline s) as [s'|] eqn:E; [|discriminate].
    destruct (IH s' H) as (s1 & H1 & H2). exists s1. split; [|assumption].
    cbn. rewrite E. assumption.
Qed.

(** Case analysis on the branches taken inside the machine transformers. *)
Ltac branches :=
  repeat match goal with
         | |- context [match on_status_change ?c with _ => _ end] =>
             destruct (on_status_change c)
         | |- context [if status_differs ?l ?st then _ else _] =>
             destruct (status_differs l st)
         | |- context [if jitter ?c then _ else _] => destruct (jitter c)
         end.

(** What a pass that comes back does to the state. *)
Lemma pass_inv (env : Env) (deadline : Q) (s s' : Vars) :
  pass env deadline s = Some s' ->
  guard_at env deadline s = true /\
  attempt_of s' = (attempt_of s + 1)%Z /\
  self (machine_of s') = self (machine_of s) /\
  requests (machine_of s') = S (requests (machine_of s)).
Proof.
  rewrite pass_eq. destruct (guard_at env deadline s); [|discriminate].
  pose proof (get_status_once_frame env (tick (machine_of s))) as [Hs Hr].
  destruct (_get_status_once _ _) as [o m1]. cbn [snd] in Hs, Hr.
  destruct (retried o); [|discriminate].
  destruct (power_at _ _); [|discriminate]. intros [= <-].
  destruct (resumed_frame env s o m1) as (Ha & Hs' & Hr').
  rewrite Ha, Hs', Hr', Hs, Hr. repeat split.
Qed.

Lemma guard_true (now deadline : Q) (attempt : Z) (cfg : StatusPollingConfig) :
  guard now deadline attempt cfg = true <->
  now < deadline /\ (attempt < max_attempts cfg)%Z.
Proof.
  unfold guard. rewrite andb_true_iff, Qlt_bool_iff, Z.ltb_lt. reflexivity.
Qed.

Lemma guard_false (now deadline : Q) (attempt : Z) (cfg : StatusPollingConfig) :
  guard now deadline attempt cfg = false <->
  deadline <= now \/ (max_attempts cfg <= attempt)%Z.
Proof.
  unfold guard. rewrite andb_false_iff, Qlt_bool_false_iff, Z.ltb_ge. reflexivity.
Qed.

Lemma passes_inv (env : Env) (deadline : Q) (k : nat) (s s' : Vars) :
  passes env deadline k s = Some s' ->
  attempt_of s' = (attempt_of s + Z.of_nat k)%Z /\
  self (machine_of s') = self (machine_of s) /\
  requests (machine_of s') = (requests (machine_of s) + k)%nat /\
  (k <> O -> (attempt_of s' <= max_attempts (config (self (machine_of s))))%Z).
Proof.
  revert s. induction k as [|k IH]; intros s H.
  - cbn in H. injection H as <-. repeat split; first [lia | reflexivity].
  - cbn in H. destruct (pass env deadline s) as [s1|] eqn:E; [|discriminate].
    destruct (pass_inv _ _ _ _ E) as (Hg & Ha & Hs & Hr).
    destruct (IH _ H) as (Ha' & Hs' & Hr' & Hm).
    apply guard_true in Hg. destruct Hg as [_ Hlt].
    repeat split; try lia; try congruence.
    intros _. destruct k as [|k'].
    + cbn in H. injection H as <-. lia.
    + rewrite <- Hs. apply Hm. discriminate.
Qed.

(** A run of the loop is some passes that come back followed by one that
    leaves. *)
Lemma run_loop_decompose (env : Env) (deadline : Q) (fuel : nat) (s : Vars)
    (out : Res StatusResponse * Machine) :
  run_loop env fuel deadline s = Some out <->
  exists k s', (k < fuel)%nat /\ passes env deadline k s = Some s' /\
               finish env deadline s' = Some out.
Proof.
  revert s. induction fuel as [|fuel IH]; intros s.
  - split; [discriminate|]. intros (k & s' & Hk & _). lia.
  - rewrite run_loop_step. split.
    + destruct (finish env deadline s) as [o|] eqn:F.
      * intros [= ->]. exists O, s. repeat split; [lia|assumption].
      * destruct (pass env deadline s) as [s1|] eqn:P; [|discriminate].
        intros H. apply IH in H. destruct H as (k & s' & Hk & Hp & Hf).
        exists (S k), s'. repeat split; [lia| |assumption]. cbn. rewrite P. assumption.
    + intros (k & s' & Hk & Hp & Hf). destruct k as [|k].
      * cbn in Hp. injection Hp as <-. rewrite Hf. reflexivity.
      * cbn in Hp. destruct (pass env deadline s) as [s1|] eqn:P; [|discriminate].
        destruct (finish_or_pass env deadline s) as [(o & _ & Hn)|(s2 & _ & Hn)];
          [congruence|]. rewrite Hn. apply IH. exists k, s'.
        repeat split; [lia|assumption|assumption].
Qed.

(** The loop always ends: every pass that comes back has incremented
    [attempt], and the guard stops it at [max_attempts]. *)
Lemma run_loop_total (env : Env) (deadline : Q) (fuel : nat) (s : Vars) :
  (max_attempts (config (self (machine_of s))) - attempt_of s < Z.of_nat fuel)%Z ->
  (0 < fuel)%nat ->
  exists out, run_loop env fuel deadline s = Some out.
Proof.
  revert s. induction fuel as [|fuel IH]; intros s Hfuel Hpos; [lia|].
  rewrite run_loop_step.
  destruct (finish_or_pass env deadline s) as [(o & -> & _)|(s' & P & ->)];
    [eauto|].
  rewrite P. destruct (pass_inv _ _ _ _ P) as (Hg & Ha & Hs & _).
  apply guard_true in Hg. destruct Hg as [_ Hlt].
  apply IH; rewrite ?Hs, ?Ha; lia.
Qed.

(** ** [poll_until_complete] as a run of the loop *)

Lemma poll_until_complete_eq (env : Env) (m : Machine) :
  poll_until_complete env m =
  run_loop env (S (Z.to_nat (max_attempts (config (self m)))))
           (deadline_of env m) (start m).
Proof. reflexivity. Qed.

Lemma poll_until_complete_total (env : Env) (m : Machine) :
  exists out, poll_until_complete env m = Some out.
Proof.
  rewrite poll_until_complete_eq. apply run_loop_total; cbn; lia.
Qed.

Lemma poll_decompose (env : Env) (m : Machine) (out : Res StatusResponse * Machine) :
  poll_until_complete env m = Some out <->
  exists k s, passes env (deadline_of env m) k (start m) = Some s /\
              finish env (deadline_of env m) s = Some out.
Proof.
  rewrite poll_until_complete_eq, run_loop_decompose. split.
  - intros (k & s & _ & Hp & Hf). eauto.
  - intros (k & s & Hp & Hf). exists k, s. repeat split; try assumption.
    destruct (passes_inv _ _ _ _ _ Hp) as (Ha & _ & _ & Hm). cbn in Ha, Hm.
    destruct k as [|k]; [lia|]. specialize (Hm ltac:(discriminate)). lia.
Qed.

(** The outcome of the pass from [s], when the loop gets to [s]. *)
Lemma poll_finishes_at (env : Env) (m : Machine) (k : nat) (s : Vars)
    (out : Res StatusResponse * Machine) :
  passes env (deadline_of env m) k (start m) = Some s ->
  finish env (deadline_of env m) s = Some out ->
  poll_until_complete env m = Some out.
Proof. intros Hp Hf. apply poll_decompose. eauto. Qed.

Lemma JobStatus_of_string_value (s : string) (st : JobStatus) :
  JobStatus_of_string s = Some st <-> s = JobStatus_value st.
Proof.
  unfold JobStatus_of_string. split.
  - destruct (String.eqb_spec s "pending"); [intros [= <-]; assumption|].
    destruct (String.eqb_spec s "completed"); [intros [= <-]; assumption|].
    destruct (String.eqb_spec s "error"); [intros [= <-]; assumption|].
    discriminate.
  - intros ->. destruct st; reflexivity.
Qed.

Lemma verdict_reports (t : Transport) (st : JobStatus) :
  reports t st <-> exists data, verdict t = Ok (st, data).
Proof.
  split.
  - intros (code & data & -> & Hc & Hd). exists data. cbn.
    destruct (Z.leb_spec 400 code); [lia|]. rewrite Hd.
    destruct st; reflexivity.
  - intros (data & H). destruct t as [|code body]; [discriminate|]. cbn in H.
    destruct (Z.leb_spec 400 code); [discriminate|].
    destruct body as [| |d]; try discriminate.
    destruct (d !! "result") as [[s| | |]|] eqn:E; try discriminate.
    destruct (JobStatus_of_string s) eqn:J; [|discriminate].
    injection H as -> ->. apply JobStatus_of_string_value in J. subst s.
    exists code, data. auto.
Qed.

(** ** Terminal statuses, connection failures, unknown statuses *)

(** C1.  If, in any pass of the loop of [poll_until_complete], the fetch
    returns a response [r] whose status is completed or error, then
    [poll_until_complete] returns [r] normally, whichever of the two the
    status is; nothing happens after the fetch but the possible notification
    of the callback: no further clock reading, request or sleep. *)
Theorem terminal_status_is_returned (env : Env) (m : Machine) (k : nat)
    (s : Vars) (r : StatusResponse) (m1 : Machine) :
  passes env (deadline_of env m) k (start m) = Some s ->
  guard_at env (deadline_of env m) s = true ->
  _get_status_once env (tick (machine_of s)) = (Ok r, m1) ->
  status r = completed \/ status r = error ->
  exists m',
    poll_until_complete env m = Some (Ok r, m') /\
    ticks m' = ticks m1 /\ requests m' = requests m1 /\
    (history m' = history m1 \/
     exists cb, on_status_change (self m) = Some cb /\
                history m' = history m1 ++ [Notify cb r]).
Proof.
  intros Hp Hg Hf Hst.
  assert (Ht : terminal (status r) = true) by (destruct Hst as [-> | ->]; reflexivity).
  exists (notified r (last_status_of s) m1). split.
  - apply (poll_finishes_at env m k s); [assumption|].
    unfold finish, body_at. rewrite Hg, loop_body_eq, Hf, Ht. reflexivity.
  - assert (Hself : self m1 = self m).
    { destruct (passes_inv _ _ _ _ _ Hp) as (_ & Hs & _). cbn in Hs.
      rewrite get_status_once_eq in Hf.
      destruct (verdict _) as [[st data]|e]; [|discriminate].
      injection Hf as _ <-. cbn. assumption. }
    unfold notified. rewrite Hself.
    destruct (on_status_change (self m)) as [cb|]; [|auto].
    destruct (status_differs _ _); [|auto].
    cbn. repeat split. right. exists cb. auto.
Qed.

(** The service reports error to the first request: the response with
    status error is the result, after that one request. *)
Lemma terminal_status_is_returned_witness :
  exists r m',
    poll_until_complete fails_remotely (boot fixture_client) = Some (Ok r, m') /\
    status r = error /\ requests m' = 1%nat.
Proof.
  edestruct (terminal_status_is_returned fails_remotely (boot fixture_client) 0
               (start (boot fixture_client)))
    as (m' & H & _ & Hr & _).
  - reflexivity.
  - vm_compute. reflexivity.
  - vm_compute. reflexivity.
  - right. reflexivity.
  - eexists _, m'. split; [exact H|]. split; [reflexivity|exact Hr].
Defined.

(** C5.  If, in any pass of the loop, the fetch fails with a connection
    error, [poll_until_complete] raises that error at once: the loop body
    ends by raising instead of coming back with an incremented attempt
    counter, and the machine is left as the failed fetch left it, with the
    request as the last entry of the history: no sleep and no other
    request follow. *)
Theorem connection_error_propagates (env : Env) (m : Machine) (k : nat)
    (s : Vars) (e : Exc) (m1 : Machine) :
  passes env (deadline_of env m) k (start m) = Some s ->
  guard_at env (deadline_of env m) s = true ->
  _get_status_once env (tick (machine_of s)) = (Raise e, m1) ->
  is_ClientConnectionError e = true ->
  poll_until_complete env m = Some (Raise e, m1) /\
  loop_body env (attempt_of s) (last_status_of s) (tick (machine_of s)) = (Raise e, m1) /\
  requests m1 = S (requests (machine_of s)) /\
  history m1 = history (machine_of s) ++ [Request (base_url (self m) ++ "/status")%string].
Proof.
  intros Hp Hg Hf He.
  assert (Hb : loop_body env (attempt_of s) (last_status_of s) (tick (machine_of s))
               = (Raise e, m1)).
  { rewrite loop_body_eq, Hf. destruct e; try discriminate. reflexivity. }
  split; [|split; [exact Hb|]].
  - apply (poll_finishes_at env m k s); [assumption|].
    unfold finish, body_at. rewrite Hg, Hb. reflexivity.
  - destruct (passes_inv _ _ _ _ _ Hp) as (_ & Hs & _). cbn in Hs.
    rewrite get_status_once_eq in Hf.
    destruct (verdict _) as [[st data]|e']; [discriminate|].
    injection Hf as _ <-. cbn. rewrite Hs. split; reflexivity.
Qed.

Lemma connection_error_propagates_witness :
  exists m1,
    poll_until_complete goes_away (boot fixture_client) =
      Some (Raise ClientConnectionError, m1) /\
    requests m1 = 2%nat /\
    last (history m1) = Some (Request "http://localhost:8000/status").
Proof.
  edestruct (connection_error_propagates goes_away (boot fixture_client) 1)
    as (H & _ & Hr & Hh).
  - vm_compute. reflexivity.
  - vm_compute. reflexivity.
  - vm_compute. reflexivity.
  - reflexivity.
  - eexists. split; [exact H|]. split; [exact Hr|]. rewrite Hh. vm_compute. reflexivity.
Defined.




(** ** The backoff delay *)

Lemma jitter_factor_range (now : Q) :
  1 <= 1 + (2 # 10) * Qmod1 now /\ 1 + (2 # 10) * Qmod1 now < 12 # 10.
Proof.
  destruct (Qmod1_range now) as [Hlo Hhi]. split; lra.
Qed.

Lemma base_delay_le_max (cfg : StatusPollingConfig) (attempt : Z) :
  base_delay cfg attempt <= max_delay cfg.
Proof. apply Q.le_min_r. Qed.

Lemma base_delay_nonneg (cfg : StatusPollingConfig) (attempt : Z) :
  0 <= initial_delay cfg -> initial_delay cfg <= max_delay cfg ->
  1 <= backoff_factor cfg ->
  0 <= base_delay cfg attempt.
Proof.
  intros Hi Hm Hb. unfold base_delay. apply Q.min_glb; [|lra].
  apply Qmult_le_0_compat; [assumption|]. apply Qpower_0_le. lra.
Qed.

Lemma base_delay_monotone (cfg : StatusPollingConfig) (i j : Z) :
  0 <= initial_delay cfg -> 1 <= backoff_factor cfg -> (i <= j)%Z ->
  base_delay cfg i <= base_delay cfg j.
Proof.
  intros Hi Hb Hij. unfold base_delay. apply Q.min_le_compat_r.
  pose proof (Qpower_le_compat_l (backoff_factor cfg) i j Hij Hb) as Hp.
  nra.
Qed.

Lemma base_delay_saturates (cfg : StatusPollingConfig) (i j : Z) :
  0 <= initial_delay cfg -> 1 <= backoff_factor cfg -> (i <= j)%Z ->
  base_delay cfg i == max_delay cfg -> base_delay cfg j == max_delay cfg.
Proof.
  intros Hi Hb Hij Hsat. apply Qle_antisym; [apply base_delay_le_max|].
  rewrite <- Hsat. apply base_delay_monotone; assumption.
Qed.

Lemma delay_at_range (env : Env) (attempt : Z) (m : Machine) :
  0 <= base_delay (config (self m)) attempt ->
  base_delay (config (self m)) attempt <= delay_at env attempt m /\
  delay_at env attempt m <= base_delay (config (self m)) attempt * (12 # 10).
Proof.
  intros Hb. unfold delay_at. cbv zeta.
  destruct (jitter _).
  - destruct (jitter_factor_range (clock env (ticks m))) as [Hlo Hhi]. split; nra.
  - split; lra.
Qed.

Lemma calculate_delay_in_range (env : Env) (attempt : Z) (m : Machine) :
  1 <= backoff_factor (config (self m)) ->
  (0 <= attempt)%Z -> inject_Z attempt < float_limit ->
  backoff_factor (config (self m)) ^ attempt < float_limit ->
  _calculate_delay env attempt m = (Ok (delay_at env attempt m), jittered m).
Proof.
  intros Hb Ha Hexp Hlim. rewrite calculate_delay_eq. unfold power_at.
  rewrite (float_pow_in_range _ _ Hb Ha Hexp Hlim). reflexivity.
Qed.




(** C7 as claimed fails: the configuration type accepts a backoff factor
    below one, and then the delay shrinks from one attempt to the next, by
    more than the jitter bound of 1.2.  And with the default configuration
    the delay of attempt 1024 does not saturate at [max_delay]:
    [_calculate_delay] raises [OverflowError]. *)
Lemma delay_shrinks_when_factor_below_one :
  (exists d0 d1 m0 m1,
     _calculate_delay two_pending 0 (boot (new_client "http://localhost:8000" (Some shrinking_config) None))
       = (Ok d0, m0) /\
     _calculate_delay two_pending 1 (boot (new_client "http://localhost:8000" (Some shrinking_config) None))
       = (Ok d1, m1) /\
     (0 <= 1)%Z /\ ~ d0 <= d1 /\ ~ d0 <= d1 * (12 # 10)) /\
  (exists d0 m0 m1,
     _calculate_delay two_pending 0 (boot (new_client "http://localhost:8000" None None))
       = (Ok d0, m0) /\
     _calculate_delay two_pending 1024 (boot (new_client "http://localhost:8000" None None))
       = (Raise OverflowError, m1) /\
     (0 <= 1024)%Z).
Proof.
  split.
  - eexists _, _, _, _. split; [reflexivity|]. split; [reflexivity|].
    split; [lia|]. split; vm_compute; intros H; apply H; reflexivity.
  - eexists _, _, _. split; [vm_compute; reflexivity|].
    split; [vm_compute; reflexivity|]. lia.
Qed.

(** C7 (as the code has it).  For a configuration within the constraints
    and attempts [0 <= i <= j] with [j] and the power [backoff_factor ^ j]
    within the range of a float, on any two machines of the same client: the
    values before jitter are ordered; so are the delays when jitter is off;
    with jitter the delay of [i] stays within the jitter bound 1.2 of the
    delay of [j]; once the value before jitter has reached [max_delay] it
    stays there; and no delay is above [max_delay * 1.2]. *)
Theorem calculate_delay_monotone (env : Env) (mi mj : Machine) (i j : Z) :
  let cfg := config (self mi) in
  self mj = self mi ->
  0 <= initial_delay cfg -> initial_delay cfg <= max_delay cfg ->
  1 <= backoff_factor cfg -> (0 <= i <= j)%Z ->
  inject_Z j < float_limit ->
  backoff_factor cfg ^ j < float_limit ->
  exists di dj mi' mj',
    _calculate_delay env i mi = (Ok di, mi') /\
    _calculate_delay env j mj = (Ok dj, mj') /\
    base_delay cfg i <= base_delay cfg j /\
    (jitter cfg = false -> di <= dj) /\
    di <= dj * (12 # 10) /\
    (base_delay cfg i == max_delay cfg -> base_delay cfg j == max_delay cfg) /\
    dj <= max_delay cfg * (12 # 10).
Proof.
  intros cfg Hself Hi Hm Hb [H0i Hij] Hexp Hlim.
  exists (delay_at env i mi), (delay_at env j mj), (jittered mi), (jittered mj).
  split.
  { apply calculate_delay_in_range; [assumption|assumption| |].
    - apply Qle_lt_trans with (inject_Z j); [|assumption].
      rewrite <- Zle_Qle. exact Hij.
    - apply Qle_lt_trans with (backoff_factor cfg ^ j); [|assumption].
      apply Qpower_le_compat_l; assumption. }
  split; [apply calculate_delay_in_range; rewrite ?Hself; first [assumption | lia]|].
  pose proof (base_delay_monotone cfg i j Hi Hb Hij) as Hmono.
  pose proof (base_delay_nonneg cfg i Hi Hm Hb) as Hni.
  pose proof (base_delay_nonneg cfg j Hi Hm Hb) as Hnj.
  pose proof (base_delay_le_max cfg j) as Hle.
  destruct (delay_at_range env i mi Hni) as [Hlo_i Hhi_i].
  assert (Hnj' : 0 <= base_delay (config (self mj)) j) by (rewrite Hself; exact Hnj).
  destruct (delay_at_range env j mj Hnj') as [Hlo_j Hhi_j].
  rewrite Hself in Hlo_j, Hhi_j. fold cfg in Hlo_i, Hhi_i, Hlo_j, Hhi_j.
  repeat split.
  - assumption.
  - intros Hj. unfold delay_at. rewrite Hself. fold cfg. rewrite Hj. assumption.
  - lra.
  - apply base_delay_saturates; assumption.
  - lra.
Qed.

Lemma calculate_delay_monotone_witness :
  exists di dj mi' mj',
    _calculate_delay two_pending 1 (boot fixture_client) = (Ok di, mi') /\
    _calculate_delay two_pending 3 (boot fixture_client) = (Ok dj, mj') /\
    di <= dj.
Proof.
  destruct (calculate_delay_monotone two_pending (boot fixture_client)
              (boot fixture_client) 1 3)
    as (di & dj & mi' & mj' & Hi & Hj & _ & Hle & _).
  - reflexivity.
  - vm_compute. discriminate.
  - vm_compute. discriminate.
  - vm_compute. discriminate.
  - lia.
  - vm_compute. reflexivity.
  - vm_compute. reflexivity.
  - exists di, dj, mi', mj'. repeat split; try assumption. apply Hle. reflexivity.
Defined.

(** ** Retries *)




Lemma passes_self (env : Env) (deadline : Q) (k : nat) (s s' : Vars) :
  passes env deadline k s = Some s' -> self (machine_of s') = self (machine_of s).
Proof. intros H. apply (passes_inv _ _ _ _ _ H). Qed.




(** ** Timeout *)

Lemma verdict_not_timeout (t : Transport) (e : Exc) (q : Q) :
  verdict t = Raise e -> e <> TimeoutError q.
Proof.
  destruct t as [|code body]; cbn; [intros [= <-]; discriminate|].
  destruct (400 <=? code)%Z; [intros [= <-]; discriminate|].
  destruct body as [| |data]; try (intros [= <-]; discriminate).
  destruct (data !! "result") as [[s| | |]|]; try (intros [= <-]; discriminate).
  destruct (JobStatus_of_string s); [discriminate|intros [= <-]; discriminate].
Qed.

(** While the loop keeps coming back, no request so far was answered with a
    terminal status. *)
Lemma passes_only_pending (env : Env) (deadline : Q) (k : nat) (s s' : Vars) :
  passes env deadline k s = Some s' ->
  forall i, (requests (machine_of s) <= i < requests (machine_of s'))%nat ->
    ~ reports (network env i) completed /\ ~ reports (network env i) error.
Proof.
  revert s. induction k as [|k IH]; intros s H i Hi.
  - cbn in H. injection H as <-. lia.
  - cbn in H. destruct (pass env deadline s) as [s1|] eqn:P; [|discriminate].
    destruct (pass_inv _ _ _ _ P) as (_ & _ & _ & Hr).
    destruct (Nat.eq_dec i (requests (machine_of s))) as [->|Hne];
      [|apply (IH s1 H); lia].
    rewrite pass_eq in P. destruct (guard_at env deadline s); [|discriminate].
    rewrite get_status_once_eq in P. cbn [tick requests] in P.
    split; intros Hrep; apply verdict_reports in Hrep; destruct Hrep as [data Hv];
      rewrite Hv in P; discriminate.
Qed.

(** C2.  [poll_until_complete] raises [TimeoutError], naming the configured
    timeout, exactly when the loop comes back to its top some number of
    times (none included) and finds the guard failing there: the clock at or
    past the deadline, which is the clock at the call plus the timeout, or
    the attempt counter at or past [max_attempts]; until then no request was
    answered with a terminal status. *)
Theorem timeout_iff_budget_exhausted (env : Env) (m : Machine) (t : Q) (m' : Machine) :
  let deadline := clock env (ticks m) + timeout (config (self m)) in
  poll_until_complete env m = Some (Raise (TimeoutError t), m') <->
  exists k s,
    passes env deadline k (start m) = Some s /\
    (deadline <= clock env (ticks (machine_of s)) \/
     (max_attempts (config (self m)) <= attempt_of s)%Z) /\
    (forall i, (requests m <= i < requests (machine_of s))%nat ->
       ~ reports (network env i) completed /\ ~ reports (network env i) error) /\
    t = timeout (config (self m)) /\ m' = tick (machine_of s).
Proof.
  intros deadline. fold (deadline_of env m) in deadline. split.
  - intros H. apply poll_decompose in H. destruct H as (k & s & Hp & Hf).
    fold deadline in Hp, Hf.
    pose proof (passes_self _ _ _ _ _ Hp) as Hs. cbn in Hs.
    exists k, s. split; [exact Hp|].
    rewrite finish_eq in Hf. destruct (guard_at env deadline s) eqn:Hg.
    + exfalso. rewrite get_status_once_eq in Hf.
      destruct (verdict _) as [[st data]|e] eqn:V.
      * destruct (retried _); [|discriminate].
        destruct (power_at _ _) as [pw|e'] eqn:Epw; [discriminate|].
        injection Hf as He _. apply (float_pow_not_timeout _ _ _ t Epw He).
      * destruct (retried _).
        { destruct (power_at _ _) as [pw|e'] eqn:Epw; [discriminate|].
          injection Hf as He _. apply (float_pow_not_timeout _ _ _ t Epw He). }
        injection Hf as He _. apply (verdict_not_timeout _ _ t V He).
    + injection Hf as <- <-. unfold guard_at in Hg. apply guard_false in Hg.
      rewrite Hs in Hg. rewrite Hs. repeat split; try assumption.
      * apply (passes_only_pending _ _ _ _ _ Hp i). cbn. assumption.
      * apply (passes_only_pending _ _ _ _ _ Hp i). cbn. assumption.
  - intros (k & s & Hp & Hg & _ & -> & ->).
    pose proof (passes_self _ _ _ _ _ Hp) as Hs. cbn in Hs.
    apply (poll_finishes_at env m k s); [exact Hp|].
    fold deadline. unfold finish.
    assert (Hgf : guard_at env deadline s = false).
    { unfold guard_at. apply guard_false. rewrite Hs. exact Hg. }
    rewrite Hgf, Hs. reflexivity.
Qed.

Lemma timeout_iff_budget_exhausted_witness :
  exists m',
    poll_until_complete never_done (boot fixture_client) =
      Some (Raise (TimeoutError 10), m') /\
    requests m' = 5%nat.
Proof.
  eexists. split.
  - apply (proj2 (timeout_iff_budget_exhausted never_done (boot fixture_client) 10 _)).
    exists 5%nat. eexists. split; [vm_compute; reflexivity|].
    split; [right; vm_compute; discriminate|].
    split; [|split; reflexivity].
    intros i Hi. cbn in Hi.
    split; intros (code & data & Hn & _ & Hd); cbn in Hn; injection Hn as _ <-;
      vm_compute in Hd; discriminate.
  - reflexivity.
Defined.

(** ** Pending, then completed *)

Lemma notifications_app (evs1 evs2 : list Event) :
  notifications (evs1 ++ evs2) = notifications evs1 ++ notifications evs2.
Proof.
  induction evs1 as [|[url|cb r|d] evs1 IH]; cbn; [reflexivity| | |]; rewrite ?IH; reflexivity.
Qed.






(** ** No state across invocations *)

Section Alignment.

Variables env env' : Env.
Variable shift : Q.
Variables h h' : list Event.

Lemma same_response_refl (r : StatusResponse) : same_response r r.
Proof. repeat split; reflexivity. Qed.

Lemma aligned_tick (m m' : Machine) :
  aligned env env' shift h h' m m' -> aligned env env' shift h h' (tick m) (tick m').
Proof.
  intros (Hs & Hc & Hn & Hh). repeat split; try assumption.
  intros n. cbn. specialize (Hc (S n)).
  rewrite !Nat.add_succ_r in Hc. exact Hc.
Qed.

Lemma aligned_sent (m m' : Machine) :
  aligned env env' shift h h' m m' -> aligned env env' shift h h' (sent m) (sent m').
Proof.
  intros (Hs & Hc & Hn & Hh). repeat split; try assumption.
  intros n. cbn. specialize (Hn (S n)).
  rewrite !Nat.add_succ_r in Hn. exact Hn.
Qed.

Lemma aligned_logged (ev ev' : Event) (m m' : Machine) :
  same_action (negb (jitter (config (self m)))) ev ev' ->
  aligned env env' shift h h' m m' ->
  aligned env env' shift h h' (logged ev m) (logged ev' m').
Proof.
  intros Hev (Hs & Hc & Hn & evs & evs' & H1 & H2 & H3). repeat split; try assumption.
  exists (evs ++ [ev]), (evs' ++ [ev']). cbn. rewrite H1, H2, !app_assoc.
  split; [reflexivity|]. split; [reflexivity|].
  apply Forall2_app; [assumption|]. constructor; [assumption|constructor].
Qed.

Lemma aligned_clock (m m' : Machine) :
  aligned env env' shift h h' m m' ->
  clock env' (ticks m') == clock env (ticks m) + shift.
Proof.
  intros (_ & Hc & _). specialize (Hc O). rewrite !Nat.add_0_r in Hc. exact Hc.
Qed.

Lemma aligned_network (m m' : Machine) :
  aligned env env' shift h h' m m' ->
  network env' (requests m') = network env (requests m).
Proof.
  intros (_ & _ & Hn & _). specialize (Hn O). rewrite !Nat.add_0_r in Hn. exact Hn.
Qed.

Lemma aligned_self (m m' : Machine) :
  aligned env env' shift h h' m m' -> self m' = self m.
Proof. intros (Hs & _). exact Hs. Qed.

Lemma aligned_asked (m m' : Machine) :
  aligned env env' shift h h' m m' -> aligned env env' shift h h' (asked m) (asked m').
Proof.
  intros H. unfold asked. rewrite (aligned_self _ _ H).
  apply aligned_sent, aligned_logged; [reflexivity|]. apply aligned_tick, H.
Qed.

Lemma aligned_get_status_once (m m' : Machine) :
  aligned env env' shift h h' m m' ->
  same_result (fst (_get_status_once env m)) (fst (_get_status_once env' m')) /\
  aligned env env' shift h h' (snd (_get_status_once env m))
    (snd (_get_status_once env' m')).
Proof.
  intros H. rewrite !get_status_once_eq, (aligned_network _ _ H).
  pose proof (aligned_clock _ _ H) as Hc0.
  pose proof (aligned_clock _ _ (aligned_tick _ _ H)) as Hc1. cbn in Hc1.
  destruct (verdict _) as [[st data]|e]; cbn.
  - split; [|apply aligned_tick, aligned_asked, H].
    repeat split. cbn. lra.
  - split; [reflexivity|]. apply aligned_asked, H.
Qed.

Lemma aligned_notified (r r' : StatusResponse) (l : option JobStatus) (m m' : Machine) :
  same_response r r' ->
  aligned env env' shift h h' m m' ->
  aligned env env' shift h h' (notified r l m) (notified r' l m').
Proof.
  intros Hr H. unfold notified. rewrite (aligned_self _ _ H).
  destruct Hr as (Hst & Hraw & Hel). rewrite Hst.
  destruct (on_status_change (self m)); [|exact H].
  destruct (status_differs l (status r)); [|exact H].
  apply aligned_logged; [|exact H]. split; [reflexivity|]. repeat split; assumption.
Qed.

Lemma aligned_slept (a : Z) (m m' : Machine) :
  aligned env env' shift h h' m m' ->
  aligned env env' shift h h' (slept env a m) (slept env' a m').
Proof.
  intros H. unfold slept. apply aligned_logged.
  - replace (self (jittered m)) with (self m)
      by (unfold jittered; destruct (jitter _); reflexivity).
    unfold delay_at, same_action. rewrite (aligned_self _ _ H).
    destruct (jitter (config (self m))); cbn; [exact I|reflexivity].
  - unfold jittered. rewrite (aligned_self _ _ H).
    destruct (jitter _); [apply aligned_tick|]; exact H.
Qed.

Lemma Qlt_bool_shift (x x' d d' : Q) :
  x' == x + shift -> d' == d + shift -> Qlt_bool x' d' = Qlt_bool x d.
Proof.
  intros Hx Hd. destruct (Qlt_bool x d) eqn:E.
  - apply Qlt_bool_iff in E. apply Qlt_bool_iff. lra.
  - apply Qlt_bool_false_iff in E. apply Qlt_bool_false_iff. lra.
Qed.

Lemma aligned_guard (d d' : Q) (s s' : Vars) :
  d' == d + shift ->
  aligned_vars env env' shift h h' s s' ->
  guard_at env' d' s' = guard_at env d s.
Proof.
  intros Hd (Ha & _ & H). unfold guard_at, guard.
  rewrite Ha, (aligned_self _ _ H).
  rewrite (Qlt_bool_shift _ _ _ _ (aligned_clock _ _ H) Hd). reflexivity.
Qed.

Lemma aligned_before_wait (s s' : Vars) (o o' : Res StatusResponse) (m1 m1' : Machine) :
  last_status_of s' = last_status_of s ->
  same_result o o' ->
  aligned env env' shift h h' m1 m1' ->
  aligned env env' shift h h' (before_wait s o m1) (before_wait s' o' m1').
Proof.
  intros Hl Ho H. destruct o as [r|e], o' as [r'|e']; try contradiction; cbn.
  - rewrite Hl. apply aligned_notified; assumption.
  - exact H.
Qed.

Lemma same_result_retried (o o' : Res StatusResponse) :
  same_result o o' -> retried o' = retried o.
Proof.
  destruct o as [r|e], o' as [r'|e']; try contradiction; cbn.
  - intros (-> & _). reflexivity.
  - intros ->. reflexivity.
Qed.

Lemma same_result_wait_attempt (s s' : Vars) (o o' : Res StatusResponse) :
  attempt_of s' = attempt_of s -> same_result o o' ->
  wait_attempt s' o' = wait_attempt s o.
Proof.
  intros Ha. destruct o, o'; try contradiction; cbn; intros _; rewrite Ha; reflexivity.
Qed.

Lemma aligned_pass (d d' : Q) (s s' : Vars) :
  d' == d + shift ->
  aligned_vars env env' shift h h' s s' ->
  same_resume env env' shift h h' (pass env d s) (pass env' d' s').
Proof.
  intros Hd H. rewrite !pass_eq, (aligned_guard d d' s s' Hd H).
  destruct (guard_at env d s); [|exact I].
  destruct H as (Ha & Hl & H).
  destruct (aligned_get_status_once _ _ (aligned_tick _ _ H)) as [Ho Hm].
  destruct (_get_status_once env _) as [o m1].
  destruct (_get_status_once env' _) as [o' m1']. cbn [fst snd] in Ho, Hm.
  rewrite (same_result_retried _ _ Ho).
  destruct (retried o); [|exact I].
  pose proof (aligned_before_wait s s' o o' m1 m1' Hl Ho Hm) as Hb.
  rewrite (same_result_wait_attempt s s' o o' Ha Ho).
  rewrite (power_at_self _ _ _ (aligned_self _ _ Hb)).
  destruct (power_at _ _); [|exact I].
  unfold same_resume, aligned_vars.
  destruct o as [r|e], o' as [r'|e']; try contradiction; cbn.
  - destruct Ho as (Hst & _). rewrite Ha, Hst.
    split; [reflexivity|split; [reflexivity|]]. apply (aligned_slept _ _ _ Hb).
  - rewrite Ha, Hl.
    split; [reflexivity|split; [reflexivity|]]. apply (aligned_slept _ _ _ Hb).
Qed.

Lemma aligned_finish (d d' : Q) (s s' : Vars) :
  d' == d + shift ->
  aligned_vars env env' shift h h' s s' ->
  same_exit env env' shift h h' (finish env d s) (finish env' d' s').
Proof.
  intros Hd H. rewrite !finish_eq, (aligned_guard d d' s s' Hd H).
  destruct H as (Ha & Hl & H).
  destruct (guard_at env d s).
  - destruct (aligned_get_status_once _ _ (aligned_tick _ _ H)) as [Ho Hm].
    destruct (_get_status_once env _) as [o m1].
    destruct (_get_status_once env' _) as [o' m1']. cbn [fst snd] in Ho, Hm.
    rewrite (same_result_retried _ _ Ho).
    pose proof (aligned_before_wait s s' o o' m1 m1' Hl Ho Hm) as Hb.
    destruct (retried o).
    + rewrite (same_result_wait_attempt s s' o o' Ha Ho).
      rewrite (power_at_self _ _ _ (aligned_self _ _ Hb)).
      destruct (power_at _ _); [exact I|]. split; [reflexivity|exact Hb].
    + destruct o as [r|e], o' as [r'|e']; try contradiction; cbn.
      * split; [exact Ho|]. exact Hb.
      * split; [exact Ho|exact Hm].
  - cbn. rewrite (aligned_self _ _ H). split; [reflexivity|]. apply aligned_tick, H.
Qed.

Lemma aligned_run_loop (fuel : nat) (d d' : Q) (s s' : Vars) :
  d' == d + shift ->
  aligned_vars env env' shift h h' s s' ->
  same_exit env env' shift h h' (run_loop env fuel d s) (run_loop env' fuel d' s').
Proof.
  intros Hd. revert s s'. induction fuel as [|fuel IH]; intros s s' H; [exact I|].
  rewrite !run_loop_step.
  pose proof (aligned_finish d d' s s' Hd H) as Hf.
  pose proof (aligned_pass d d' s s' Hd H) as Hp.
  destruct (finish env d s) as [[o m]|], (finish env' d' s') as [[o' m']|];
    try contradiction; [exact Hf|].
  destruct (pass env d s) as [s1|], (pass env' d' s') as [s1'|];
    try contradiction; [|exact I].
  apply IH, Hp.
Qed.

End Alignment.

Lemma finish_self (env : Env) (deadline : Q) (s : Vars)
    (out : Res StatusResponse) (m1 : Machine) :
  finish env deadline s = Some (out, m1) -> self m1 = self (machine_of s).
Proof.
  rewrite finish_eq.
  destruct (guard_at env deadline s); [|intros [= _ <-]; reflexivity].
  pose proof (get_status_once_frame env (tick (machine_of s))) as [Hs _].
  destruct (_get_status_once _ _) as [o m']. cbn [snd tick self] in Hs.
  destruct (retried o).
  - destruct (power_at _ _); [discriminate|]. intros [= _ <-].
    rewrite (proj1 (before_wait_frame s o m')). exact Hs.
  - destruct o as [r|e]; intros [= _ <-]; [|exact Hs].
    change (notified r (last_status_of s) m') with (before_wait s (Ok r) m').
    rewrite (proj1 (before_wait_frame s (Ok r) m')). exact Hs.
Qed.

(** [poll_until_complete] leaves the client object as it found it. *)
Lemma poll_until_complete_self (env : Env) (m : Machine)
    (out : Res StatusResponse) (m1 : Machine) :
  poll_until_complete env m = Some (out, m1) -> self m1 = self m.
Proof.
  intros H. apply poll_decompose in H. destruct H as (k & s & Hp & Hf).
  rewrite (finish_self _ _ _ _ _ Hf). apply (passes_self _ _ _ _ _ Hp).
Qed.

(** C8 (as the code has it).  [poll_until_complete] keeps nothing from one
    invocation to the next.  The attempt counter, the last status and the
    deadline are local to the call; the client object with its fields
    [base_url], [config] and [on_status_change] is the same after the call
    as before.  A second invocation on the machine the first one has left,
    facing the same replies as the first one did and, [shift] seconds later,
    the same course of the clock, ends with the same result, be it a
    response or an exception, after the same requests and notifications and
    as many sleeps; with jitter off the sleeps last as long as before. *)
Theorem no_state_across_invocations (env env' : Env) (shift : Q) (m : Machine)
    (out : Res StatusResponse) (m1 : Machine) :
  poll_until_complete env m = Some (out, m1) ->
  (forall n, clock env' (ticks m1 + n) == clock env (ticks m + n) + shift) ->
  (forall n, network env' (requests m1 + n) = network env (requests m + n)) ->
  base_url (self m1) = base_url (self m) /\
  config (self m1) = config (self m) /\
  on_status_change (self m1) = on_status_change (self m) /\
  exists out' m2 evs evs',
    poll_until_complete env' m1 = Some (out', m2) /\
    same_result out out' /\
    self m2 = self m /\
    history m1 = history m ++ evs /\
    history m2 = history m1 ++ evs' /\
    Forall2 (same_action (negb (jitter (config (self m))))) evs evs'.
Proof.
  intros H Hc Hn.
  pose proof (poll_until_complete_self env m out m1 H) as Hself.
  rewrite Hself. repeat split.
  assert (Hal : aligned_vars env env' shift (history m) (history m1) (start m) (start m1)).
  { split; [reflexivity|]. split; [reflexivity|]. cbn [start machine_of].
    split; [exact Hself|]. split; [|split].
    - intros n. cbn. specialize (Hc (S n)). rewrite !Nat.add_succ_r in Hc. exact Hc.
    - exact Hn.
    - exists [], []. rewrite !app_nil_r. repeat split. constructor. }
  assert (Hd : deadline_of env' m1 == deadline_of env m + shift).
  { unfold deadline_of. rewrite Hself. specialize (Hc O).
    rewrite !Nat.add_0_r in Hc. rewrite Hc. ring. }
  pose proof (aligned_run_loop env env' shift (history m) (history m1)
                (S (Z.to_nat (max_attempts (config (self m)))))
                (deadline_of env m) (deadline_of env' m1) (start m) (start m1) Hd Hal)
    as Hrun.
  rewrite <- poll_until_complete_eq, H in Hrun.
  rewrite poll_until_complete_eq, Hself.
  destruct (run_loop env' _ _ (start m1)) as [[o' m2]|]; [|contradiction].
  destruct Hrun as (Ho & Hs2 & _ & _ & evs & evs' & H1 & H2 & H3).
  exists o', m2, evs, evs'. repeat split; try assumption; congruence.
Qed.

(** The same client, without jitter, invoked twice in a row on one clock
    that moves forward: the second invocation starts ten clock readings,
    that is a second and a quarter, after the first one and is answered in
    the same way. *)
Lemma no_state_across_invocations_witness :
  exists out m1 out' m2,
    poll_until_complete recurring (boot fixture_client) = Some (out, m1) /\
    poll_until_complete recurring m1 = Some (out', m2) /\
    same_result out out' /\
    self m2 = fixture_client /\
    sleeps (history m2) = sleeps (history m1) ++ sleeps (history m1).
Proof.
  edestruct (no_state_across_invocations recurring recurring (10 # 8)
               (boot fixture_client))
    as (_ & _ & _ & out' & m2 & evs & evs' & H2 & Ho & Hs & _).
  - vm_compute. reflexivity.
  - intros n. cbn [ticks boot clock recurring]. rewrite Nat.add_0_l.
    rewrite Nat2Z.inj_add, inject_Z_plus. change (inject_Z (Z.of_nat 10)) with 10. ring.
  - intros n. cbn [requests boot network recurring]. rewrite Nat.add_0_l.
    replace (3 + n)%nat with (n + 1 * 3)%nat by lia.
    rewrite Nat.Div0.mod_add. reflexivity.
  - eexists _, _, out', m2. split; [vm_compute; reflexivity|].
    split; [exact H2|]. split; [exact Ho|]. split; [exact Hs|].
    vm_compute in H2. injection H2 as _ <-. reflexivity.
Defined.

(** C8 as claimed fails with jitter on.  On a clock that moves forward, the
    same client is invoked twice in a row, a second and a half apart, and is
    answered in the same way both times (pending, pending, completed): it
    returns completed both times, but it sleeps 1.1 s and 2 s in the first
    run and 1 s and 2.2 s in the second, since the jitter is taken from the
    clock. *)
Lemma jitter_differs_between_invocations :
  exists r m1 r' m2,
    poll_until_complete recurring (boot jitter_client) = Some (Ok r, m1) /\
    poll_until_complete recurring m1 = Some (Ok r', m2) /\
    self m1 = jitter_client /\
    (forall n, network recurring (requests m1 + n) = network recurring n) /\
    (forall n, clock recurring (ticks m1 + n) == clock recurring n + (12 # 8)) /\
    status r = completed /\ status r' = completed /\
    ~ total_sleep (drop (length (history m1)) (history m2))
      == total_sleep (history m1).
Proof.
  eexists _, _, _, _. split; [vm_compute; reflexivity|].
  split; [vm_compute; reflexivity|]. split; [reflexivity|].
  split.
  { intros n. cbn [requests network recurring].
    replace (3 + n)%nat with (n + 1 * 3)%nat by lia.
    rewrite Nat.Div0.mod_add. reflexivity. }
  split.
  { intros n. cbn [ticks clock recurring].
    rewrite Nat2Z.inj_add, inject_Z_plus. change (inject_Z (Z.of_nat 12)) with 12. ring. }
  split; [reflexivity|]. split; [reflexivity|].
  vm_compute. discriminate.
Qed.

(** ** What a run leaves in the history *)

Lemma request_urls_app (evs1 evs2 : list Event) :
  request_urls (evs1 ++ evs2) = request_urls evs1 ++ request_urls evs2.
Proof.
  induction evs1 as [|[url|cb r|d] evs1 IH]; cbn; rewrite ?IH; reflexivity.
Qed.

Lemma sleeps_app (evs1 evs2 : list Event) :
  sleeps (evs1 ++ evs2) = sleeps evs1 ++ sleeps evs2.
Proof.
  induction evs1 as [|[url|cb r|d] evs1 IH]; cbn; rewrite ?IH; reflexivity.
Qed.

Lemma status_differs_pending (l : option JobStatus) :
  status_differs l pending = false <-> l = Some pending.
Proof.
  destruct l as [[| |]|]; cbn; split; congruence.
Qed.

(** The actions of a pass that comes back: the request, at most one
    notification, the sleep. *)
Lemma pass_events (env : Env) (deadline : Q) (s s' : Vars) :
  pass env deadline s = Some s' ->
  exists notes a mm,
    history (machine_of s') =
      history (machine_of s)
      ++ Request (base_url (self (machine_of s)) ++ "/status")%string
         :: notes ++ [Sleep (delay_at env a mm)] /\
    self mm = self (machine_of s) /\
    ((last_status_of s' = Some pending /\
      ((notes = [] /\
        (on_status_change (self (machine_of s)) = None \/
         last_status_of s = Some pending)) \/
       (exists cb r, notes = [Notify cb r] /\
          on_status_change (self (machine_of s)) = Some cb /\
          status r = pending /\ last_status_of s <> Some pending))) \/
     (last_status_of s' = last_status_of s /\ notes = [])).
Proof.
  rewrite pass_eq. destruct (guard_at env deadline s); [|discriminate].
  rewrite get_status_once_eq. cbn [tick requests ticks].
  destruct (verdict _) as [[st data]|e]; cbn [retried status].
  - destruct st; cbn [terminal negb]; try discriminate.
    destruct (power_at _ _); [|discriminate]. intros [= <-].
    cbn [resumed machine_of last_status_of status].
    set (r := {| status := pending |}).
    set (m1 := tick (asked (tick (machine_of s)))).
    unfold slept, notified. cbn [self tick asked sent logged m1].
    fold m1. change (self m1) with (self (machine_of s)).
    destruct (on_status_change (self (machine_of s))) as [cb|] eqn:Hcb.
    + destruct (status_differs (last_status_of s) pending) eqn:Hd.
      * exists [Notify cb r], (attempt_of s + 1)%Z, (logged (Notify cb r) m1).
        split; [|split; [reflexivity|]].
        { unfold jittered. cbn. rewrite ?Hcb, ?Hd. cbn. destruct (jitter _); cbn; rewrite <- ?app_assoc; reflexivity. }
        left. split; [reflexivity|]. right. exists cb, r.
        repeat split. intros Hl. apply status_differs_pending in Hl. congruence.
      * exists [], (attempt_of s + 1)%Z, m1.
        split; [|split; [reflexivity|]].
        { unfold jittered. cbn. rewrite ?Hcb, ?Hd. cbn. destruct (jitter _); cbn; rewrite <- ?app_assoc; reflexivity. }
        left. split; [reflexivity|]. left. split; [reflexivity|].
        right. apply status_differs_pending, Hd.
    + exists [], (attempt_of s + 1)%Z, m1.
      split; [|split; [reflexivity|]].
      { unfold jittered. cbn. rewrite ?Hcb, ?Hd. cbn. destruct (jitter _); cbn; rewrite <- ?app_assoc; reflexivity. }
      left. split; [reflexivity|]. left. split; [reflexivity|]. left. reflexivity.
  - destruct (is_ClientError e && negb (is_ClientConnectionError e)); [|discriminate].
    destruct (power_at _ _); [|discriminate]. intros [= <-]. cbn [resumed machine_of last_status_of].
    exists [], (attempt_of s), (asked (tick (machine_of s))).
    split; [|split; [reflexivity|]].
    { unfold slept, jittered. cbn. destruct (jitter _); cbn; rewrite <- ?app_assoc; reflexivity. }
    right. split; reflexivity.
Qed.

(** The invariant of the loop. *)
Lemma passes_at_top (env : Env) (m : Machine) (k : nat) (s : Vars) :
  passes env (deadline_of env m) k (start m) = Some s ->
  exists evs, at_top env m k s evs.
Proof.
  revert s. induction k as [|k IH]; intros s H.
  - cbn in H. injection H as <-. exists []. unfold at_top. cbn.
    rewrite app_nil_r. repeat split; try constructor. split; reflexivity.
  - apply passes_unsnoc in H. destruct H as (s1 & H1 & H2).
    destruct (IH s1 H1) as (evs & Hh & Hr & Hs & Hu & Hd & Hn).
    pose proof (passes_self _ _ _ _ _ H1) as Hself. cbn in Hself.
    destruct (pass_events _ _ _ _ H2) as (notes & a & mm & Hh' & Hmm & Hcase).
    rewrite Hself in Hh', Hmm, Hcase.
    exists (evs ++ Request (base_url (self m) ++ "/status")%string
                :: notes ++ [Sleep (delay_at env a mm)]).
    assert (Hnotes : request_urls notes = [] /\ sleeps notes = []).
    { destruct Hcase as [(_ & [(-> & _)|(cb & r & -> & _)])|(_ & ->)]; split; reflexivity. }
    destruct Hnotes as [Hnu Hns].
    unfold at_top. rewrite Hh', Hh, <- app_assoc.
    rewrite !request_urls_app, !sleeps_app, !notifications_app. cbn.
    rewrite !request_urls_app, !sleeps_app, !notifications_app, Hnu, Hns. cbn.
    rewrite !length_app, Hr, Hs, app_nil_r. cbn.
    split; [reflexivity|]. split; [lia|]. split; [lia|].
    split; [apply Forall_app; split; [assumption|repeat constructor]|].
    split; [apply Forall_app; split; [assumption|repeat constructor; eauto]|].
    destruct Hcase as [(Hl' & [(-> & Hwhy)|(cb & r & -> & Hcb & Hst & Hne)])|(Hl' & ->)];
      cbn; rewrite ?app_nil_r.
    + right. split; [assumption|].
      destruct Hwhy as [Hnone|Hlp].
      * rewrite Hnone. destruct Hn as [(_ & Hn)|(_ & Hn)]; [assumption|].
        rewrite Hnone in Hn. assumption.
      * destruct Hn as [(Hl & _)|(_ & Hn)]; [congruence|assumption].
    + right. split; [assumption|]. rewrite Hcb.
      destruct Hn as [(_ & ->)|(Hl & _)]; [|congruence].
      exists r. split; [assumption|reflexivity].
    + rewrite Hl'. assumption.
Qed.

(** How a pass leaves the loop. *)
Lemma finish_cases (env : Env) (deadline : Q) (s : Vars)
    (out : Res StatusResponse) (m' : Machine) :
  finish env deadline s = Some (out, m') ->
  (guard_at env deadline s = false /\
   out = Raise (TimeoutError (timeout (config (self (machine_of s))))) /\
   m' = tick (machine_of s)) \/
  (guard_at env deadline s = true /\
   exists st data,
     verdict (network env (requests (machine_of s))) = Ok (st, data) /\
     terminal st = true /\
     out = Ok {| status := st; raw_response := data;
                 elapsed_time := clock env (S (S (ticks (machine_of s))))
                                 - clock env (S (ticks (machine_of s))) |} /\
     m' = notified {| status := st; raw_response := data;
                      elapsed_time := clock env (S (S (ticks (machine_of s))))
                                      - clock env (S (ticks (machine_of s))) |}
            (last_status_of s) (tick (asked (tick (machine_of s))))) \/
  (guard_at env deadline s = true /\
   exists e,
     verdict (network env (requests (machine_of s))) = Raise e /\
     is_ClientError e && negb (is_ClientConnectionError e) = false /\
     out = Raise e /\ m' = asked (tick (machine_of s))) \/
  (guard_at env deadline s = true /\
   exists o m1 e,
     _get_status_once env (tick (machine_of s)) = (o, m1) /\
     retried o = true /\
     power_at (wait_attempt s o) (before_wait s o m1) = Raise e /\
     out = Raise e /\ m' = before_wait s o m1).
Proof.
  rewrite finish_eq. destruct (guard_at env deadline s).
  - destruct (_get_status_once env (tick (machine_of s))) as [o m1] eqn:F.
    destruct (retried o) eqn:R.
    + destruct (power_at _ _) as [pw|e] eqn:E; [discriminate|].
      intros [= <- <-]. do 3 right. split; [reflexivity|].
      exists o, m1, e. repeat split; assumption.
    + rewrite get_status_once_eq in F. cbn [tick requests ticks] in F.
      destruct (verdict _) as [[st data]|e] eqn:V; injection F as <- <-.
      * cbn in R. apply negb_false_iff in R.
        intros [= <- <-]. right. left. split; [reflexivity|].
        exists st, data. repeat split. assumption.
      * cbn in R. intros [= <- <-]. right. right. left. split; [reflexivity|].
        exists e. repeat split. assumption.
  - intros [= <- <-]. left. repeat split.
Qed.

(** The actions of a pass up to the point where it begins to wait. *)
Lemma before_wait_events (env : Env) (s : Vars) (o : Res StatusResponse) (m1 : Machine) :
  _get_status_once env (tick (machine_of s)) = (o, m1) ->
  retried o = true ->
  exists notes,
    history (before_wait s o m1) =
      history (machine_of s)
      ++ Request (base_url (self (machine_of s)) ++ "/status")%string :: notes /\
    requests (before_wait s o m1) = S (requests (machine_of s)) /\
    ((notes = [] /\
      ((exists e, o = Raise e) \/ on_status_change (self (machine_of s)) = None \/
       last_status_of s = Some pending)) \/
     (exists cb r, notes = [Notify cb r] /\
        on_status_change (self (machine_of s)) = Some cb /\
        status r = pending /\ last_status_of s <> Some pending)).
Proof.
  rewrite get_status_once_eq. cbn [tick requests ticks].
  destruct (verdict _) as [[st data]|e]; intros [= <- <-]; cbn [retried status before_wait].
  - destruct st; cbn [terminal negb]; try discriminate. intros _.
    set (r := {| status := pending |}).
    unfold notified. cbn [self tick asked sent logged status r].
    destruct (on_status_change (self (machine_of s))) as [cb|] eqn:Hcb.
    + destruct (status_differs (last_status_of s) pending) eqn:Hd.
      * exists [Notify cb r]. cbn. rewrite <- ?app_assoc. repeat split.
        right. exists cb, r. repeat split.
        intros Hl. apply status_differs_pending in Hl. congruence.
      * exists []. cbn. repeat split. left. split; [reflexivity|].
        right. right. apply status_differs_pending, Hd.
    + exists []. cbn. repeat split. left. split; [reflexivity|]. right. left. reflexivity.
  - intros _. exists []. cbn. repeat split. left. split; [reflexivity|]. left. eauto.
Qed.

(** X1.  A response that [poll_until_complete] returns has a terminal
    status, completed or error, never pending; it is built from the reply to
    the last request sent: its status is the value under the key result and
    its raw response is the whole payload of that reply. *)
Theorem returned_response_is_last_reply (env : Env) (m : Machine)
    (r : StatusResponse) (m' : Machine) :
  poll_until_complete env m = Some (Ok r, m') ->
  (status r = completed \/ status r = error) /\
  (requests m < requests m')%nat /\
  exists code,
    network env (pred (requests m')) = Replied code (Payload (raw_response r)) /\
    (code < 400)%Z /\
    raw_response r !! "result" = Some (JString (JobStatus_value (status r))).
Proof.
  intros H. apply poll_decompose in H. destruct H as (k & s & Hp & Hf).
  destruct (passes_inv _ _ _ _ _ Hp) as (_ & Hs & Hr & _). cbn in Hs, Hr.
  apply finish_cases in Hf.
  destruct Hf as [(_ & Hout & _)|[(_ & st & data & V & T & Hout & ->)|[(_ & e & _ & _ & Hout & _)|(_ & o & mo & e & _ & _ & _ & Hout & _)]]];
    try discriminate.
  injection Hout as ->. cbn [status raw_response].
  assert (Hreq : requests (notified {| status := st; raw_response := data;
                   elapsed_time := clock env (S (S (ticks (machine_of s))))
                                   - clock env (S (ticks (machine_of s))) |}
                   (last_status_of s) (tick (asked (tick (machine_of s)))))
                 = S (requests (machine_of s))).
  { unfold notified. cbn. branches; reflexivity. }
  rewrite Hreq, Hr. cbn [pred]. rewrite <- Hr.
  split; [destruct st; [discriminate|auto|auto]|]. split; [lia|].
  destruct (proj2 (verdict_reports _ st) (ex_intro _ data V)) as (code & d & Hn & Hc & Hd).
  rewrite Hn in V. cbn in V. destruct (Z.leb_spec 400 code); [lia|].
  rewrite Hd in V. destruct st; cbn in V; injection V as ->; exists code; auto.
Qed.

Lemma returned_response_is_last_reply_witness :
  exists r m',
    poll_until_complete two_pending (boot fixture_client) = Some (Ok r, m') /\
    status r = completed /\
    network two_pending 2 = Replied 200 (Payload (raw_response r)).
Proof.
  eexists _, _. split; [vm_compute; reflexivity|].
  edestruct (returned_response_is_last_reply two_pending (boot fixture_client))
    as (_ & _ & code & Hn & _).
  - vm_compute. reflexivity.
  - split; [reflexivity|]. reflexivity.
Defined.

(** X2.  [poll_until_complete] always ends, and it never sends more than
    [max_attempts] requests; with [max_attempts] at or below zero it sends
    none. *)
Theorem requests_within_max_attempts (env : Env) (m : Machine) :
  exists out m',
    poll_until_complete env m = Some (out, m') /\
    (Z.of_nat (requests m' - requests m) <= Z.max 0 (max_attempts (config (self m))))%Z.
Proof.
  destruct (poll_until_complete_total env m) as [[out m'] H].
  exists out, m'. split; [exact H|].
  apply poll_decompose in H. destruct H as (k & s & Hp & Hf).
  destruct (passes_inv _ _ _ _ _ Hp) as (Ha & Hs & Hr & Hm). cbn in Ha, Hs, Hr, Hm.
  apply finish_cases in Hf.
  destruct Hf as [(_ & _ & ->)|[(Hg & st & data & _ & _ & _ & ->)|[(Hg & e & _ & _ & _ & ->)|(Hg & o & mo & e & F & _ & _ & _ & ->)]]].
  - cbn. rewrite Hr. destruct k as [|k]; [lia|]. specialize (Hm ltac:(discriminate)). lia.
  - apply guard_true in Hg. rewrite Hs in Hg. destruct Hg as [_ Hg].
    assert (Hreq : forall r l, requests (notified r l (tick (asked (tick (machine_of s)))))
                               = S (requests (machine_of s))).
    { intros r l. unfold notified. cbn. branches; reflexivity. }
    rewrite Hreq, Hr. lia.
  - apply guard_true in Hg. rewrite Hs in Hg. destruct Hg as [_ Hg].
    cbn. rewrite Hr. lia.
  - apply guard_true in Hg. rewrite Hs in Hg. destruct Hg as [_ Hg].
    rewrite (proj2 (before_wait_frame s o mo)).
    pose proof (get_status_once_frame env (tick (machine_of s))) as [_ Hreq].
    rewrite F in Hreq. cbn in Hreq. rewrite Hreq, Hr. lia.
Qed.

(** Everything a finished run has done, in one statement. *)
Lemma poll_summary (env : Env) (m : Machine) (out : Res StatusResponse) (m' : Machine) :
  poll_until_complete env m = Some (out, m') ->
  exists k evs,
    history m' = history m ++ evs /\
    (Z.of_nat k <= Z.max 0 (max_attempts (config (self m))))%Z /\
    length (sleeps evs) = k /\
    length (request_urls evs) =
      match out with
      | Raise (TimeoutError _) => k
      | _ => S k
      end /\
    requests m' = (requests m + length (request_urls evs))%nat /\
    Forall (fun url => url = (base_url (self m) ++ "/status")%string) (request_urls evs) /\
    Forall (fun d => exists a mm, d = delay_at env a mm /\ self mm = self m) (sleeps evs) /\
    match on_status_change (self m) with
    | None => notifications evs = []
    | Some cb =>
        exists pre,
          (pre = [] \/ exists p, status p = pending /\ pre = [(cb, p)]) /\
          notifications evs =
            pre ++ match out with Ok r => [(cb, r)] | Raise _ => [] end
    end.
Proof.
  intros H. apply poll_decompose in H. destruct H as (k & s & Hp & Hf).
  destruct (passes_at_top _ _ _ _ Hp) as (evs & Hh & Hu & Hs & Hurl & Hd & Hn).
  destruct (passes_inv _ _ _ _ _ Hp) as (Ha & Hself & Hr & Hm). cbn in Ha, Hself, Hr, Hm.
  assert (Hk : (Z.of_nat k <= Z.max 0 (max_attempts (config (self m))))%Z).
  { destruct k as [|k']; [lia|]. specialize (Hm ltac:(discriminate)). lia. }
  assert (Hpre : match on_status_change (self m) with
                 | None => notifications evs = []
                 | Some cb => (notifications evs = [] \/
                               exists p, status p = pending /\ notifications evs = [(cb, p)])
                 end).
  { destruct (on_status_change (self m)) as [cb|].
    - destruct Hn as [(_ & ->)|(_ & p & Hst & ->)]; [left; reflexivity|right; eauto].
    - destruct Hn as [(_ & Hn)|(_ & Hn)]; exact Hn. }
  apply finish_cases in Hf.
  destruct Hf as [(_ & -> & ->)|[(_ & st & data & _ & T & -> & ->)|[(_ & e & V & _ & -> & ->)|(_ & o & mo & e & F & R & Epw & -> & ->)]]].
  - exists k, evs. cbn [history tick requests]. rewrite Hh, Hu, Hs, Hr.
    repeat split; try assumption.
    destruct (on_status_change (self m)) as [cb|]; [|assumption].
    exists (notifications evs). rewrite app_nil_r. split; [|reflexivity].
    destruct Hpre as [->|(p & Hst & ->)]; [left; reflexivity|right; eauto].
  - set (r := {| status := st |}).
    assert (Hdiff : status_differs (last_status_of s) st = true).
    { destruct Hn as [(-> & _)|(-> & _)]; [reflexivity|].
      destruct st; [discriminate|reflexivity|reflexivity]. }
    exists k, (evs ++ Request (base_url (self m) ++ "/status")%string
                    :: match on_status_change (self m) with
                       | Some cb => [Notify cb r]
                       | None => []
                       end).
    unfold notified. cbn [self tick asked sent logged status r].
    rewrite Hself, Hdiff. fold r.
    rewrite request_urls_app, sleeps_app, notifications_app, !length_app.
    destruct (on_status_change (self m)) as [cb|]; cbn;
      rewrite ?Hh, ?Hr, ?Hu, ?Hs, ?Hself, ?app_nil_r, <- ?app_assoc; cbn.
    + repeat split; try lia; try assumption.
      * apply Forall_app. split; [assumption|repeat constructor].
      * exists (notifications evs). split; [|reflexivity].
        destruct Hpre as [->|(p & Hst & ->)]; [left; reflexivity|right; eauto].
    + repeat split; try lia; try assumption.
      apply Forall_app. split; [assumption|repeat constructor].
  - exists k, (evs ++ [Request (base_url (self m) ++ "/status")%string]).
    cbn [asked tick sent logged history requests self].
    rewrite Hself, Hh, Hr, <- app_assoc.
    rewrite request_urls_app, sleeps_app, notifications_app, !length_app, Hu, Hs.
    cbn. rewrite !app_nil_r.
    assert (He : match e with TimeoutError _ => False | _ => True end).
    { destruct e; try exact I. apply (verdict_not_timeout _ _ seconds V eq_refl). }
    repeat split; try assumption.
    + lia.
    + destruct e; first [lia | contradiction].
    + lia.
    + apply Forall_app. split; [assumption|repeat constructor].
    + destruct (on_status_change (self m)) as [cb|]; [|assumption].
      exists (notifications evs). rewrite app_nil_r. split; [|reflexivity].
      destruct Hpre as [->|(p & Hst & ->)]; [left; reflexivity|right; eauto].
  - destruct (before_wait_events env s o mo F R) as (notes & Hh' & Hreq & Hnotes).
    rewrite Hself in Hh', Hnotes.
    exists k, (evs ++ Request (base_url (self m) ++ "/status")%string :: notes).
    rewrite Hh', Hh, Hreq, Hr, <- app_assoc.
    rewrite request_urls_app, sleeps_app, notifications_app, !length_app, Hu, Hs.
    assert (He : match e with TimeoutError _ => False | _ => True end).
    { destruct e; try exact I. apply (float_pow_not_timeout _ _ _ seconds Epw eq_refl). }
    destruct Hnotes as [(-> & _)|(cb & r & -> & Hcb & Hst & Hl)]; cbn;
      rewrite ?app_nil_r.
    + repeat split; try assumption.
      * lia.
      * destruct e; first [lia | contradiction].
      * lia.
      * apply Forall_app. split; [assumption|repeat constructor].
      * destruct (on_status_change (self m)) as [cb|]; [|assumption].
        exists (notifications evs). rewrite app_nil_r. split; [|reflexivity].
        destruct Hpre as [->|(p & Hst & ->)]; [left; reflexivity|right; eauto].
    + repeat split; try assumption.
      * lia.
      * destruct e; first [lia | contradiction].
      * lia.
      * apply Forall_app. split; [assumption|repeat constructor].
      * rewrite Hcb. rewrite Hcb in Hn.
        destruct Hn as [(_ & ->)|(Hl' & _)]; [|contradiction].
        exists [(cb, r)]. split; [right; eauto|reflexivity].
Qed.

(** X3.  Every request that [poll_until_complete] sends goes to the URL
    made of the client's [base_url] and the path [/status], and the history
    holds one request entry per request sent. *)
Theorem requests_go_to_status_url (env : Env) (m : Machine)
    (out : Res StatusResponse) (m' : Machine) :
  poll_until_complete env m = Some (out, m') ->
  exists evs,
    history m' = history m ++ evs /\
    length (request_urls evs) = (requests m' - requests m)%nat /\
    Forall (fun url => url = (base_url (self m) ++ "/status")%string) (request_urls evs).
Proof.
  intros H. destruct (poll_summary env m out m' H)
    as (k & evs & Hh & _ & _ & _ & Hr & Hu & _).
  exists evs. repeat split; try assumption. lia.
Qed.

Lemma requests_go_to_status_url_witness :
  exists out m',
    poll_until_complete two_pending (boot fixture_client) = Some (out, m') /\
    request_urls (history m') =
      ["http://localhost:8000/status"; "http://localhost:8000/status";
       "http://localhost:8000/status"].
Proof.
  edestruct (requests_go_to_status_url two_pending (boot fixture_client))
    as (evs & Hh & _ & _).
  - vm_compute. reflexivity.
  - eexists _, _. split; [vm_compute; reflexivity|]. vm_compute. reflexivity.
Defined.

(** X4.  Requests and sleeps alternate.  When [poll_until_complete] ends
    with its own [TimeoutError] it has slept as often as it has sent a
    request; when it ends in any other way, with a response or with an
    exception of the fetch or of the delay computation, it has slept once
    less: nothing is slept after the last request. *)
Theorem sleeps_between_requests (env : Env) (m : Machine)
    (out : Res StatusResponse) (m' : Machine) :
  poll_until_complete env m = Some (out, m') ->
  exists evs,
    history m' = history m ++ evs /\
    match out with
    | Raise (TimeoutError _) => length (sleeps evs) = length (request_urls evs)
    | _ => S (length (sleeps evs)) = length (request_urls evs)
    end.
Proof.
  intros H. destruct (poll_summary env m out m' H)
    as (k & evs & Hh & _ & Hs & Hu & _).
  exists evs. split; [assumption|]. rewrite Hs, Hu.
  destruct out as [r|[]]; reflexivity.
Qed.

Lemma sleeps_between_requests_witness :
  exists out m',
    poll_until_complete never_done (boot fixture_client) = Some (out, m') /\
    length (sleeps (history m')) = 5%nat /\
    length (request_urls (history m')) = 5%nat.
Proof.
  edestruct (sleeps_between_requests never_done (boot fixture_client))
    as (evs & Hh & _).
  - vm_compute. reflexivity.
  - eexists _, _. split; [vm_compute; reflexivity|]. split; vm_compute; reflexivity.
Defined.

(** X5.  The callback notifications of one run, for a callback that
    returns whenever it is invoked.  Without a callback there are none.
    With a callback there is at most one notification of a pending
    response, and it comes first; a response that [poll_until_complete]
    returns is always notified, and last; when the run ends with
    [TimeoutError], with an exception of the fetch or with one of the delay
    computation, no terminal response was notified.  So the callback is
    invoked at most twice. *)
Theorem callback_notifications (env : Env) (m : Machine)
    (out : Res StatusResponse) (m' : Machine) :
  poll_until_complete env m = Some (out, m') ->
  exists evs,
    history m' = history m ++ evs /\
    match on_status_change (self m) with
    | None => notifications evs = []
    | Some cb =>
        exists pre,
          (pre = [] \/ exists p, status p = pending /\ pre = [(cb, p)]) /\
          notifications evs =
            pre ++ match out with Ok r => [(cb, r)] | Raise _ => [] end
    end.
Proof.
  intros H. destruct (poll_summary env m out m' H)
    as (k & evs & Hh & _ & _ & _ & _ & _ & _ & Hn).
  exists evs. split; assumption.
Qed.

(** A server error between two pending replies does not make the callback
    fire again. *)
Lemma callback_notifications_witness :
  exists out m' p,
    poll_until_complete
      {| clock := quarter_clock;
         network := fun n => if (n =? 1)%nat then Replied 503 NotJson
                             else Replied 200 pending_body |}
      (boot fixture_client) = Some (out, m') /\
    notifications (history m') = [(watcher, p)] /\ requests m' = 5%nat.
Proof.
  edestruct (callback_notifications
               {| clock := quarter_clock;
                  network := fun n => if (n =? 1)%nat then Replied 503 NotJson
                                      else Replied 200 pending_body |}
               (boot fixture_client))
    as (evs & Hh & _).
  - vm_compute. reflexivity.
  - eexists _, _, _. split; [vm_compute; reflexivity|].
    split; vm_compute; reflexivity.
Defined.

Lemma total_sleep_bound (l : list Q) (B : Q) :
  Forall (fun d => d <= B) l ->
  fold_right Qplus 0 l <= inject_Z (Z.of_nat (length l)) * B.
Proof.
  induction 1 as [|d l Hd _ IH]; cbn [fold_right length].
  - change (inject_Z (Z.of_nat 0)) with 0. lra.
  - rewrite Nat2Z.inj_succ, <- Z.add_1_r, inject_Z_plus.
    change (inject_Z 1) with 1. nra.
Qed.

(** X6.  For a configuration within the constraints (initial delay not
    negative, maximal delay not below it, backoff factor at least one) every
    sleep of a run lasts between zero and [max_delay * 1.2], and all sleeps
    of a run together last at most [max_attempts * max_delay * 1.2]. *)
Theorem sleeps_are_bounded (env : Env) (m : Machine)
    (out : Res StatusResponse) (m' : Machine) :
  let cfg := config (self m) in
  0 <= initial_delay cfg -> initial_delay cfg <= max_delay cfg ->
  1 <= backoff_factor cfg ->
  poll_until_complete env m = Some (out, m') ->
  exists evs,
    history m' = history m ++ evs /\
    Forall (fun d => 0 <= d /\ d <= max_delay cfg * (12 # 10)) (sleeps evs) /\
    total_sleep evs <=
      inject_Z (Z.max 0 (max_attempts cfg)) * (max_delay cfg * (12 # 10)).
Proof.
  intros cfg Hi Hm Hb H. destruct (poll_summary env m out m' H)
    as (k & evs & Hh & Hk & Hs & _ & _ & _ & Hd & _).
  exists evs. split; [assumption|].
  assert (Hall : Forall (fun d => 0 <= d /\ d <= max_delay cfg * (12 # 10)) (sleeps evs)).
  { eapply Forall_impl; [exact Hd|]. cbn. intros d (a & mm & -> & Hself).
    assert (Hnn : 0 <= base_delay (config (self mm)) a).
    { rewrite Hself. apply base_delay_nonneg; assumption. }
    destruct (delay_at_range env a mm Hnn) as [Hlo Hhi].
    pose proof (base_delay_le_max (config (self mm)) a) as Hle.
    rewrite Hself in Hnn, Hlo, Hhi, Hle. fold cfg in Hnn, Hlo, Hhi, Hle.
    split; lra. }
  split; [exact Hall|].
  unfold total_sleep.
  apply Qle_trans with (inject_Z (Z.of_nat (length (sleeps evs))) * (max_delay cfg * (12 # 10))).
  - apply total_sleep_bound. eapply Forall_impl; [exact Hall|]. cbn. intros d [_ Hd']. exact Hd'.
  - rewrite Hs. apply Qmult_le_compat_r; [|lra].
    rewrite <- Zle_Qle. exact Hk.
Qed.

Lemma sleeps_are_bounded_witness :
  exists out m',
    poll_until_complete never_done (boot fixture_client) = Some (out, m') /\
    total_sleep (history m') <= 5 * (2 * (12 # 10)).
Proof.
  edestruct (sleeps_are_bounded never_done (boot fixture_client))
    as (evs & Hh & _ & Ht).
  - vm_compute. discriminate.
  - vm_compute. discriminate.
  - vm_compute. discriminate.
  - vm_compute. reflexivity.
  - eexists _, _. split; [vm_compute; reflexivity|].
    cbn [history boot app] in Hh. rewrite <- Hh in Ht. exact Ht.
Defined.

(** ** Edges of the budget, of the fetch and of the constructor *)

(** X7.  Without a budget nothing is requested.  If [max_attempts] is zero
    or negative, or if the timeout is zero or negative and the clock does not
    run backwards between the first two readings, [poll_until_complete]
    raises [TimeoutError] at the first evaluation of the guard: two clock
    readings are all it has done. *)
Theorem no_budget_no_request (env : Env) (m : Machine) :
  (max_attempts (config (self m)) <= 0)%Z \/
  (timeout (config (self m)) <= 0 /\ clock env (ticks m) <= clock env (S (ticks m))) ->
  poll_until_complete env m =
    Some (Raise (TimeoutError (timeout (config (self m)))), tick (tick m)).
Proof.
  intros Hb. apply (poll_finishes_at env m O (start m)); [reflexivity|].
  unfold finish.
  assert (Hg : guard_at env (deadline_of env m) (start m) = false).
  { unfold guard_at. apply guard_false. cbn. unfold deadline_of.
    destruct Hb as [Hb|[Ht Hc]]; [right; exact Hb|left; lra]. }
  rewrite Hg. reflexivity.
Qed.

Lemma no_budget_no_request_witness :
  poll_until_complete never_done
    (boot (new_client "http://localhost:8000"
             (Some {| initial_delay := 1; max_delay := 32; backoff_factor := 2;
                      max_attempts := 0%Z; timeout := 300; jitter := true |}) None))
  = Some (Raise (TimeoutError 300),
          {| self := new_client "http://localhost:8000"
                       (Some {| initial_delay := 1; max_delay := 32; backoff_factor := 2;
                                max_attempts := 0%Z; timeout := 300; jitter := true |}) None;
             ticks := 2; requests := 0; history := [] |}).
Proof.
  apply (no_budget_no_request never_done). left. cbn. lia.
Defined.

Lemma quarter_clock_monotone (n : nat) : quarter_clock n <= quarter_clock (S n).
Proof.
  unfold quarter_clock. rewrite Nat2Z.inj_succ, <- Z.add_1_r, inject_Z_plus.
  change (inject_Z 1) with 1. lra.
Qed.

(** X8.  On a clock that never runs backwards, the elapsed time of a
    response that [poll_until_complete] returns is not negative. *)
Theorem elapsed_time_nonnegative (env : Env) (m : Machine)
    (r : StatusResponse) (m' : Machine) :
  (forall n, clock env n <= clock env (S n)) ->
  poll_until_complete env m = Some (Ok r, m') ->
  0 <= elapsed_time r.
Proof.
  intros Hmono H. apply poll_decompose in H. destruct H as (k & s & _ & Hf).
  apply finish_cases in Hf.
  destruct Hf as [(_ & Hout & _)|[(_ & st & data & _ & _ & Hout & _)|[(_ & e & _ & _ & Hout & _)|(_ & o & mo & e & _ & _ & _ & Hout & _)]]];
    try discriminate.
  injection Hout as ->. cbn [elapsed_time].
  specialize (Hmono (S (ticks (machine_of s)))). lra.
Qed.

Lemma elapsed_time_nonnegative_witness :
  exists r m',
    poll_until_complete two_pending (boot fixture_client) = Some (Ok r, m') /\
    0 <= elapsed_time r.
Proof.
  eexists _, _. split; [vm_compute; reflexivity|].
  eapply (elapsed_time_nonnegative two_pending (boot fixture_client)).
  - exact quarter_clock_monotone.
  - vm_compute. reflexivity.
Defined.

(** X9.  A payload without the key result.  The fetch fails with
    [KeyError], which is no [aiohttp.ClientError]; [poll_until_complete]
    does not retry: it raises the [KeyError] with the request as its last
    action. *)
Theorem missing_result_key_propagates (env : Env) (m : Machine) (k : nat)
    (s : Vars) (code : Z) (data : gmap string Json) :
  passes env (deadline_of env m) k (start m) = Some s ->
  guard_at env (deadline_of env m) s = true ->
  network env (requests (machine_of s)) = Replied code (Payload data) ->
  (code < 400)%Z ->
  data !! "result" = None ->
  exists m',
    _get_status_once env (tick (machine_of s)) = (Raise (KeyError "result"), m') /\
    poll_until_complete env m = Some (Raise (KeyError "result"), m') /\
    history m' =
      history (machine_of s) ++ [Request (base_url (self m) ++ "/status")%string].
Proof.
  intros Hp Hg Hn Hc Hd. exists (asked (tick (machine_of s))).
  assert (Hf : _get_status_once env (tick (machine_of s)) =
               (Raise (KeyError "result"), asked (tick (machine_of s)))).
  { rewrite get_status_once_eq. cbn [tick requests]. rewrite Hn. cbn.
    destruct (Z.leb_spec 400 code); [lia|]. rewrite Hd. reflexivity. }
  split; [exact Hf|]. split.
  - apply (poll_finishes_at env m k s); [assumption|].
    rewrite finish_eq, Hg, Hf. reflexivity.
  - cbn. rewrite (passes_self _ _ _ _ _ Hp). reflexivity.
Qed.

Lemma missing_result_key_propagates_witness :
  exists m',
    poll_until_complete
      {| clock := quarter_clock;
         network := fun _ => Replied 200 (Payload {[ "status" := JString "completed" ]}) |}
      (boot fixture_client) = Some (Raise (KeyError "result"), m') /\
    requests m' = 1%nat.
Proof.
  edestruct (missing_result_key_propagates
               {| clock := quarter_clock;
                  network := fun _ => Replied 200 (Payload {[ "status" := JString "completed" ]}) |}
               (boot fixture_client) 0 (start (boot fixture_client)) 200
               {[ "status" := JString "completed" ]})
    as (m' & Hf & H & _).
  - reflexivity.
  - vm_compute. reflexivity.
  - reflexivity.
  - lia.
  - vm_compute. reflexivity.
  - exists m'. split; [exact H|]. vm_compute in Hf. injection Hf as <-. reflexivity.
Defined.

(** X10.  An HTTP status of 400 or above wins over the body.  Whatever the
    reply carries, a completed result included, the fetch fails with
    [ClientResponseError]; when the power of the backoff delay for the
    attempt counter as it stands can be computed, the loop does not end: it
    waits that delay, notifies nobody, and comes back to its top with the
    counter incremented and the last status as it was. *)
Theorem http_error_is_retried (env : Env) (deadline : Q) (s : Vars)
    (code : Z) (body : Body) (pw : Q) :
  guard_at env deadline s = true ->
  network env (requests (machine_of s)) = Replied code body ->
  (400 <= code)%Z ->
  float_pow (backoff_factor (config (self (machine_of s)))) (attempt_of s) = Ok pw ->
  exists m1 d m2,
    _get_status_once env (tick (machine_of s)) = (Raise (ClientResponseError code), m1) /\
    _calculate_delay env (attempt_of s) m1 = (Ok d, m2) /\
    pass env deadline s =
      Some {| attempt_of := attempt_of s + 1; last_status_of := last_status_of s;
              machine_of := logged (Sleep d) m2 |} /\
    history (logged (Sleep d) m2) =
      history (machine_of s)
      ++ [Request (base_url (self (machine_of s)) ++ "/status")%string; Sleep d].
Proof.
  intros Hg Hn Hc Hpw.
  exists (asked (tick (machine_of s))),
    (delay_at env (attempt_of s) (asked (tick (machine_of s)))),
    (jittered (asked (tick (machine_of s)))).
  assert (Hf : _get_status_once env (tick (machine_of s)) =
               (Raise (ClientResponseError code), asked (tick (machine_of s)))).
  { rewrite get_status_once_eq. cbn [tick requests]. rewrite Hn. cbn.
    destruct (Z.leb_spec 400 code); [reflexivity|lia]. }
  assert (Hp : power_at (attempt_of s) (asked (tick (machine_of s))) = Ok pw) by exact Hpw.
  split; [exact Hf|]. split; [rewrite calculate_delay_eq, Hp; reflexivity|]. split.
  - rewrite pass_eq, Hg, Hf. cbn [retried is_ClientError is_ClientConnectionError andb negb
                                  wait_attempt before_wait].
    rewrite Hp. reflexivity.
  - unfold jittered. cbn. destruct (jitter _); cbn; rewrite <- ?app_assoc; reflexivity.
Qed.

Lemma http_error_is_retried_witness :
  exists s',
    pass {| clock := quarter_clock; network := fun _ => Replied 500 completed_body |}
         10 (start (boot fixture_client)) = Some s' /\
    attempt_of s' = 1%Z /\ last_status_of s' = None /\
    notifications (history (machine_of s')) = [].
Proof.
  edestruct (http_error_is_retried
               {| clock := quarter_clock; network := fun _ => Replied 500 completed_body |}
               10 (start (boot fixture_client)) 500 completed_body 1)
    as (m1 & d & m2 & Hf & Hd & Hp & Hh).
  - vm_compute. reflexivity.
  - reflexivity.
  - lia.
  - vm_compute. reflexivity.
  - eexists. split; [exact Hp|]. split; [reflexivity|]. split; [reflexivity|].
    cbn [machine_of]. rewrite Hh. reflexivity.
Defined.

(** X11.  A reply that is no HTTP error and whose payload carries the value
    of a status under the key result makes the fetch return a response with
    that status; the raw response is the whole payload, whatever else it
    holds; the elapsed time is the difference of the two clock readings
    around the request; one request went out, to the status URL. *)
Theorem fetch_returns_status (env : Env) (m : Machine) (code : Z)
    (data : gmap string Json) (st : JobStatus) :
  network env (requests m) = Replied code (Payload data) ->
  (code < 400)%Z ->
  data !! "result" = Some (JString (JobStatus_value st)) ->
  exists m',
    _get_status_once env m =
      (Ok {| status := st; raw_response := data;
             elapsed_time := clock env (S (ticks m)) - clock env (ticks m) |}, m') /\
    self m' = self m /\ ticks m' = S (S (ticks m)) /\ requests m' = S (requests m) /\
    history m' = history m ++ [Request (base_url (self m) ++ "/status")%string].
Proof.
  intros Hn Hc Hd. exists (tick (asked m)).
  split; [|repeat split].
  rewrite get_status_once_eq, Hn. cbn.
  destruct (Z.leb_spec 400 code); [lia|]. rewrite Hd.
  destruct st; reflexivity.
Qed.

Lemma fetch_returns_status_witness :
  exists r m',
    _get_status_once
      {| clock := quarter_clock;
         network := fun _ => Replied 200
           (Payload (<[ "progress" := JNumber 40 ]> {[ "result" := JString "pending" ]})) |}
      (boot fixture_client) = (Ok r, m') /\
    status r = pending /\ raw_response r !! "progress" = Some (JNumber 40).
Proof.
  edestruct (fetch_returns_status
               {| clock := quarter_clock;
                  network := fun _ => Replied 200
                    (Payload (<[ "progress" := JNumber 40 ]> {[ "result" := JString "pending" ]})) |}
               (boot fixture_client) 200
               (<[ "progress" := JNumber 40 ]> {[ "result" := JString "pending" ]}) pending)
    as (m' & H & _).
  - reflexivity.
  - lia.
  - vm_compute. reflexivity.
  - eexists _, m'. split; [exact H|]. split; [reflexivity|]. vm_compute. reflexivity.
Defined.

(** X12.  The constructor strips the trailing slashes of the URL it is
    given and nothing else: the URL is the stored [base_url] followed by
    slashes only, and the stored [base_url] does not end with a slash. *)
Theorem base_url_has_no_trailing_slash (url : string)
    (cfg : option StatusPollingConfig) (cb : option Callback) :
  ends_with_slash (base_url (new_client url cfg cb)) = false /\
  exists n, url = (base_url (new_client url cfg cb) ++ slashes n)%string.
Proof.
  cbn [new_client base_url]. induction url as [|c url [IH1 [n IH2]]].
  - split; [reflexivity|]. exists O. reflexivity.
  - cbn [rstrip_slash]. destruct (rstrip_slash url) as [|c' r] eqn:E.
    + change (url = slashes n) in IH2.
      destruct (Ascii.eqb_spec c "/"%char) as [->|Hne].
      * split; [reflexivity|]. exists (S n). rewrite IH2 at 1. reflexivity.
      * split.
        { cbn. apply Ascii.eqb_neq. exact Hne. }
        exists n. rewrite IH2 at 1. reflexivity.
    + split; [exact IH1|]. exists n. rewrite IH2 at 1. reflexivity.
Qed.

(** ** The mock server and the client against it *)

Lemma served_settings (srv : TranslationServer) (moments : nat -> Moment) (n : nat) :
  completion_time (served srv moments n) = completion_time srv /\
  error_rate (served srv moments n) = error_rate srv /\
  (n <> O -> start_time (served srv moments n) = Some (origin srv moments)).
Proof.
  induction n as [|n (IHc & IHe & IHs)]; [repeat split; congruence|].
  cbn [served]. unfold handle_status. cbv zeta.
  assert (Ht : match start_time (served srv moments n) with
               | Some t => t
               | None => now_at_start (moments n)
               end = origin srv moments).
  { destruct n as [|n']; [reflexivity|]. rewrite IHs by discriminate. reflexivity. }
  rewrite Ht.
  destruct (Qlt_bool _ _); [|destruct (Qle_bool _ _)];
    cbn [snd completion_time error_rate start_time]; auto.
Qed.

(** The reply to request number [n], by the moments alone. *)
Lemma reply_eq (srv : TranslationServer) (moments : nat -> Moment) (n : nat) :
  reply srv moments n =
  if Qlt_bool (draw (moments n)) (error_rate srv) then json_response "error"
  else if Qle_bool (completion_time srv) (now_at_check (moments n) - origin srv moments)
       then json_response "completed"
       else json_response "pending".
Proof.
  unfold reply, handle_status. cbv zeta. cbn [completion_time error_rate].
  destruct (served_settings srv moments n) as (-> & -> & Hs).
  assert (Ht : match start_time (served srv moments n) with
               | Some t => t
               | None => now_at_start (moments n)
               end = origin srv moments).
  { destruct n as [|n']; [reflexivity|]. rewrite Hs by discriminate. reflexivity. }
  rewrite Ht. destruct (Qlt_bool _ _); [reflexivity|].
  destruct (Qle_bool _ _); reflexivity.
Qed.

Lemma json_response_reports (st : JobStatus) :
  reports (json_response (JobStatus_value st)) st.
Proof.
  exists 200%Z, {[ "result" := JString (JobStatus_value st) ]}.
  split; [reflexivity|]. split; [lia|]. apply lookup_singleton_eq.
Qed.

Lemma reports_functional (t : Transport) (st1 st2 : JobStatus) :
  reports t st1 -> reports t st2 -> st1 = st2.
Proof.
  intros H1 H2. apply verdict_reports in H1, H2.
  destruct H1 as [d1 H1], H2 as [d2 H2]. congruence.
Qed.

(** What the server reports, by the moments alone. *)
Lemma reply_reports (srv : TranslationServer) (moments : nat -> Moment) (n : nat) :
  exists st,
    reports (reply srv moments n) st /\
    (st = error <-> draw (moments n) < error_rate srv) /\
    (st = completed <->
     error_rate srv <= draw (moments n) /\
     completion_time srv <= now_at_check (moments n) - origin srv moments).
Proof.
  rewrite reply_eq.
  destruct (Qlt_bool _ _) eqn:E.
  - apply Qlt_bool_iff in E. exists error.
    split; [apply (json_response_reports error)|].
    split; [tauto|]. split; [discriminate|]. intros [H _]. lra.
  - apply Qlt_bool_false_iff in E.
    destruct (Qle_bool _ _) eqn:C.
    + apply Qle_bool_iff in C. exists completed.
      split; [apply (json_response_reports completed)|].
      split; [split; [discriminate|intros; lra]|tauto].
    + exists pending. split; [apply (json_response_reports pending)|].
      split; [split; [discriminate|intros; lra]|].
      split; [discriminate|]. intros [_ H]. apply Qle_bool_iff in H. congruence.
Qed.

Lemma reply_verdict (srv : TranslationServer) (moments : nat -> Moment) (n : nat) :
  exists st data,
    verdict (reply srv moments n) = Ok (st, data) /\
    (st = error <-> draw (moments n) < error_rate srv) /\
    (st = completed <->
     error_rate srv <= draw (moments n) /\
     completion_time srv <= now_at_check (moments n) - origin srv moments).
Proof.
  destruct (reply_reports srv moments n) as (st & Hr & He & Hc).
  apply verdict_reports in Hr. destruct Hr as [data Hv]. eauto.
Qed.

(** X13.  Every reply of [handle_status] is one the client's fetch accepts:
    the fetch returns a response.  Its status is error exactly when the
    random draw is below the error rate, and completed exactly when it is
    not and the time since the server's start time, which is the time of
    this request if none was served before, has reached the completion
    time; otherwise it is pending. *)
Theorem server_reply_is_parsed (env : Env) (m : Machine)
    (srv : TranslationServer) (mo : Moment) :
  network env (requests m) = fst (handle_status srv mo) ->
  exists r m',
    _get_status_once env m = (Ok r, m') /\
    (status r = error <-> draw mo < error_rate srv) /\
    (status r = completed <->
     error_rate srv <= draw mo /\
     completion_time srv <=
       now_at_check mo - match start_time srv with
                         | Some t => t
                         | None => now_at_start mo
                         end).
Proof.
  intros Hn.
  destruct (reply_verdict srv (fun _ => mo) O) as (st & data & Hv & He & Hc).
  change (reply srv (fun _ => mo) O) with (fst (handle_status srv mo)) in Hv.
  rewrite get_status_once_eq, Hn, Hv.
  eexists _, _. split; [reflexivity|]. cbn [status]. split; assumption.
Qed.

Lemma server_reply_is_parsed_witness :
  exists r m',
    _get_status_once (against (new_server (Some 2) (Some 0)) every_second quarter_clock)
      (boot fixture_client) = (Ok r, m') /\
    status r = pending.
Proof.
  edestruct (server_reply_is_parsed
               (against (new_server (Some 2) (Some 0)) every_second quarter_clock)
               (boot fixture_client) (new_server (Some 2) (Some 0)) (every_second 0))
    as (r & m' & H & _).
  - reflexivity.
  - exists r, m'. split; [exact H|].
    vm_compute in H. injection H as <- _. reflexivity.
Defined.

(** X14.  The server takes its start time from the first request it
    handles and keeps it: after one request or more the start time is the
    one it had, or else the time of the first request; completion time and
    error rate are never changed by a request. *)
Theorem start_time_is_set_once (srv : TranslationServer)
    (moments : nat -> Moment) (n : nat) :
  n <> O ->
  start_time (served srv moments n) =
    Some (match start_time srv with
          | Some t => t
          | None => now_at_start (moments O)
          end) /\
  completion_time (served srv moments n) = completion_time srv /\
  error_rate (served srv moments n) = error_rate srv.
Proof.
  intros Hn. destruct (served_settings srv moments n) as (Hc & He & Hs).
  split; [exact (Hs Hn)|]. split; assumption.
Qed.

Lemma start_time_is_set_once_witness :
  start_time (served (new_server None None) (fun n => every_second (n + 7)) 3) = Some 7.
Proof.
  apply (start_time_is_set_once (new_server None None) (fun n => every_second (n + 7)) 3).
  discriminate.
Defined.

(** X15.  Polling the mock server always ends, in one of three ways only:
    with a response whose status is completed or error, with the
    [TimeoutError] of [poll_until_complete], or with the [OverflowError] of
    the power in the backoff delay.  No reply of the server makes the fetch
    fail. *)
Theorem polling_server_outcomes (srv : TranslationServer)
    (moments : nat -> Moment) (clk : nat -> Q) (m : Machine) :
  exists out m',
    poll_until_complete (against srv moments clk) m = Some (out, m') /\
    ((exists r, out = Ok r /\ (status r = completed \/ status r = error)) \/
     out = Raise (TimeoutError (timeout (config (self m)))) \/
     out = Raise OverflowError).
Proof.
  destruct (poll_until_complete_total (against srv moments clk) m) as [[out m'] H].
  exists out, m'. split; [exact H|].
  apply poll_decompose in H. destruct H as (k & s & Hp & Hf).
  pose proof (passes_self _ _ _ _ _ Hp) as Hs. cbn in Hs.
  destruct (passes_inv _ _ _ _ _ Hp) as (Ha & _). cbn in Ha.
  apply finish_cases in Hf.
  destruct Hf as [(_ & -> & _)|[(_ & st & data & _ & T & -> & _)|[(_ & e & V & _)|(_ & o & mo & e & _ & _ & Epw & -> & _)]]].
  - right. left. rewrite Hs. reflexivity.
  - left. eexists. split; [reflexivity|]. cbn. destruct st; [discriminate|auto|auto].
  - exfalso. cbn [against network] in V.
    destruct (reply_verdict srv moments (requests (machine_of s))) as (st & data & Hv & _).
    congruence.
  - right. right. apply float_pow_raises in Epw.
    destruct Epw as [->|[_ Hneg]]; [reflexivity|].
    exfalso. destruct o; cbn [wait_attempt] in Hneg; lia.
Qed.

(** X16.  With an error rate of one or above, as the test of the error
    scenario sets it, and random draws below one, the first request is
    answered with error: if the budget admits one fetch,
    [poll_until_complete] returns a response with status error after a
    single request. *)
Theorem error_rate_one_returns_error (srv : TranslationServer)
    (moments : nat -> Moment) (clk : nat -> Q) (m : Machine) :
  1 <= error_rate srv ->
  draw (moments (requests m)) < 1 ->
  (0 < max_attempts (config (self m)))%Z ->
  clk (S (ticks m)) < clk (ticks m) + timeout (config (self m)) ->
  exists r m',
    poll_until_complete (against srv moments clk) m = Some (Ok r, m') /\
    status r = error /\ requests m' = S (requests m).
Proof.
  intros Hrate Hdraw Hmax Hclk.
  destruct (reply_verdict srv moments (requests m)) as (st & data & Hv & He & _).
  assert (Hst : st = error) by (apply He; lra). subst st.
  set (env := against srv moments clk).
  set (r := {| status := error; raw_response := data;
               elapsed_time := clock env (S (S (S (ticks m)))) - clock env (S (S (ticks m))) |}).
  exists r, (notified r None (tick (asked (tick (tick m))))).
  split; [|split; [reflexivity|unfold notified; cbn; branches; reflexivity]].
  apply (poll_finishes_at env m O (start m)); [reflexivity|].
  rewrite finish_eq.
  assert (Hg : guard_at env (deadline_of env m) (start m) = true).
  { unfold guard_at. apply guard_true. cbn. split; [exact Hclk|exact Hmax]. }
  rewrite Hg, get_status_once_eq. cbn [start machine_of tick requests ticks last_status_of].
  change (network env (requests m)) with (reply srv moments (requests m)).
  rewrite Hv. reflexivity.
Qed.

Lemma error_rate_one_returns_error_witness :
  exists r m',
    poll_until_complete (against (new_server (Some 2) (Some 1)) every_second quarter_clock)
      (boot fixture_client) = Some (Ok r, m') /\
    status r = error /\ requests m' = 1%nat.
Proof.
  apply (error_rate_one_returns_error (new_server (Some 2) (Some 1)) every_second
           quarter_clock (boot fixture_client)).
  - vm_compute. discriminate.
  - vm_compute. reflexivity.
  - vm_compute. reflexivity.
  - vm_compute. reflexivity.
Defined.

(** X17.  With an error rate of zero or below and random draws that are not
    negative the server never reports error: a response that
    [poll_until_complete] returns has the status completed. *)
Theorem no_errors_returns_completed (srv : TranslationServer)
    (moments : nat -> Moment) (clk : nat -> Q) (m : Machine)
    (r : StatusResponse) (m' : Machine) :
  error_rate srv <= 0 ->
  (forall n, 0 <= draw (moments n)) ->
  poll_until_complete (against srv moments clk) m = Some (Ok r, m') ->
  status r = completed.
Proof.
  intros Hrate Hdraw H.
  apply poll_decompose in H. destruct H as (k & s & Hp & Hf).
  apply finish_cases in Hf.
  destruct Hf as [(_ & Hout & _)|[(_ & st & data & V & T & Hout & _)|[(_ & e & _ & _ & Hout & _)|(_ & o & mo & e & _ & _ & _ & Hout & _)]]];
    try discriminate.
  injection Hout as ->. cbn [status].
  cbn [against network] in V.
  destruct (reply_verdict srv moments (requests (machine_of s)))
    as (st' & data' & Hv & He & _).
  rewrite Hv in V. injection V as -> ->.
  destruct st; [discriminate|reflexivity|].
  exfalso. specialize (Hdraw (requests (machine_of s))).
  pose proof (proj1 He eq_refl). lra.
Qed.

Lemma no_errors_returns_completed_witness :
  exists r m',
    poll_until_complete (against (new_server (Some 2) (Some 0)) every_second quarter_clock)
      (boot fixture_client) = Some (Ok r, m') /\
    status r = completed /\ requests m' = 3%nat.
Proof.
  eexists _, _. split; [vm_compute; reflexivity|]. split; [|reflexivity].
  eapply (no_errors_returns_completed (new_server (Some 2) (Some 0)) every_second
            quarter_clock (boot fixture_client)).
  - vm_compute. discriminate.
  - intros n. vm_compute. discriminate.
  - vm_compute. reflexivity.
Defined.

(** X18.  A job that does not complete in time.  If no error is drawn and
    the time since the server's start stays below the completion time at
    every request the attempt cap admits, and the power of the backoff delay
    can be computed for every attempt from one to [max_attempts],
    [poll_until_complete] ends with [TimeoutError]. *)
Theorem never_completed_times_out (srv : TranslationServer)
    (moments : nat -> Moment) (clk : nat -> Q) (m : Machine) :
  (forall n, (requests m <= n)%nat ->
             (Z.of_nat n < Z.of_nat (requests m) + max_attempts (config (self m)))%Z ->
             error_rate srv <= draw (moments n) /\
             now_at_check (moments n) - origin srv moments < completion_time srv) ->
  (forall a, (1 <= a <= max_attempts (config (self m)))%Z ->
             exists pw, float_pow (backoff_factor (config (self m))) a = Ok pw) ->
  exists m',
    poll_until_complete (against srv moments clk) m =
      Some (Raise (TimeoutError (timeout (config (self m)))), m').
Proof.
  intros Hpending Hpow.
  destruct (poll_until_complete_total (against srv moments clk) m) as [[out m'] H].
  exists m'. rewrite H. do 2 f_equal.
  apply poll_decompose in H. destruct H as (k & s & Hp & Hf).
  destruct (passes_inv _ _ _ _ _ Hp) as (Ha & Hs & Hr & _). cbn in Ha, Hs, Hr.
  apply finish_cases in Hf.
  destruct Hf as [(_ & -> & _)|[(Hg & st & data & V & T & _)|[(_ & e & V & _)|(Hg & o & mo & e & F & _ & Epw & _)]]].
  - rewrite Hs. reflexivity.
  - exfalso. apply guard_true in Hg. destruct Hg as [_ Hg]. rewrite Hs, Ha in Hg.
    cbn [against network] in V.
    destruct (reply_verdict srv moments (requests (machine_of s)))
      as (st' & data' & Hv & He & Hc).
    rewrite Hv in V. injection V as -> _.
    destruct (Hpending (requests (machine_of s))) as [Hd Hlt]; [lia|lia|].
    destruct st; [discriminate| |].
    + pose proof (proj1 Hc eq_refl) as [_ Hge]. lra.
    + pose proof (proj1 He eq_refl). lra.
  - exfalso. cbn [against network] in V.
    destruct (reply_verdict srv moments (requests (machine_of s))) as (st & data & Hv & _).
    congruence.
  - exfalso. apply guard_true in Hg. destruct Hg as [_ Hg]. rewrite Hs, Ha in Hg.
    destruct (reply_verdict srv moments (requests (machine_of s))) as (st & data & Hv & _).
    rewrite get_status_once_eq in F. cbn [against network tick requests] in F.
    rewrite Hv in F. injection F as <- <-.
    unfold power_at in Epw. rewrite (proj1 (before_wait_frame _ _ _)) in Epw.
    cbn [self tick asked sent logged wait_attempt] in Epw. rewrite Hs, Ha in Epw.
    destruct (Hpow (0 + Z.of_nat k + 1)%Z) as [pw Hok]; [lia|]. congruence.
Qed.

Lemma never_completed_times_out_witness :
  exists m',
    poll_until_complete (against (new_server (Some 30) (Some 0)) every_second quarter_clock)
      (boot fixture_client) = Some (Raise (TimeoutError 10), m').
Proof.
  apply (never_completed_times_out (new_server (Some 30) (Some 0)) every_second
           quarter_clock (boot fixture_client)).
  - intros n _ Hn. cbn in Hn.
    destruct n as [|[|[|[|[|n]]]]];
      [split; vm_compute; first [reflexivity | discriminate] ..|lia].
  - intros a Ha. cbn in Ha.
    assert (Hc : (a = 1 \/ a = 2 \/ a = 3 \/ a = 4 \/ a = 5)%Z) by lia.
    destruct Hc as [->|[->|[->|[->| ->]]]]; eexists; vm_compute; reflexivity.
Defined.

(** X19.  Completion is not taken back.  If the server's clock does not
    run backwards, then once a request was answered with completed every
    later request at which no error is drawn is answered with completed. *)
Theorem completed_stays_completed (srv : TranslationServer)
    (moments : nat -> Moment) (i j : nat) :
  (i <= j)%nat ->
  now_at_check (moments i) <= now_at_check (moments j) ->
  reports (reply srv moments i) completed ->
  error_rate srv <= draw (moments j) ->
  reports (reply srv moments j) completed.
Proof.
  intros _ Hmono Hi Hj.
  destruct (reply_reports srv moments i) as (sti & Hri & _ & Hci).
  assert (sti = completed) by (apply (reports_functional _ _ _ Hri Hi)). subst sti.
  destruct (proj1 Hci eq_refl) as [_ Hdone].
  destruct (reply_reports srv moments j) as (stj & Hrj & _ & Hcj).
  assert (stj = completed) by (apply Hcj; split; [assumption|lra]).
  subst stj. exact Hrj.
Qed.

Lemma completed_stays_completed_witness :
  reports (reply (new_server (Some 2) (Some 0)) every_second 5) completed.
Proof.
  apply (completed_stays_completed (new_server (Some 2) (Some 0)) every_second 2 5).
  - lia.
  - vm_compute. discriminate.
  - exists 200%Z, {[ "result" := JString "completed" ]}.
    split; [vm_compute; reflexivity|]. split; [lia|]. vm_compute. reflexivity.
  - vm_compute. discriminate.
Defined.
